(** * Price-drop monitor: windowed-maximum storage, symbol monitor, dispatcher

    Shallow embedding of [binance.py].

    - A [datetime] is an integer count of microseconds and a [timedelta] a
      signed integer count of microseconds, exactly as Python stores them, so
      both are [Z] here.
    - A price is a Python number (the feed handler passes [float]s, the unit
      tests pass [int]s).  The storage only compares prices and takes their
      maximum, which is exact on finite numbers; prices are therefore modelled
      as canonical rationals ([Qc]), whose Leibniz equality and order agree
      with Python's [==] and [<] on finite numbers.  The single arithmetic
      expression of the program, [DROP_RELATIVE], is evaluated exactly; the
      rounding of binary floating point is not modelled.  Python raises
      [ZeroDivisionError] on a zero divisor and the model does the same.
    - Python objects are mutated in place and an exception leaves the object
      as it was at the moment of the raise.  Every operation is therefore a
      function from the state to an outcome together with the state that is
      left behind, also when the outcome is an exception. *)

From Stdlib Require Import ZArith QArith Qcanon.
From stdpp Require Import gmap strings list fin_maps.

Local Open Scope Z_scope.

(** ** Outcomes *)

(** The exceptions the modelled code can raise.  [OutOfFuel] is not a Python
    exception: it marks the exhaustion of the iteration bound given to the
    model of the [while True] loop, and is shown below never to occur. *)
Inductive exn : Type :=
  | ValueError
  | AttributeError
  | ZeroDivisionError
  | KeyError (key : string)
  | MonitorNotCreated (stream : string)
  | OutOfFuel.

Inductive result (A : Type) : Type :=
  | Ok (a : A)
  | Raise (e : exn).
Arguments Ok {A} a.
Arguments Raise {A} e.

(** ** Prices *)

Definition Qcltb (x y : Qc) : bool :=
  match (x ?= y)%Qc with Lt => true | _ => false end.

(** Python's two-argument [max(a, b)]: [b] when [b > a], otherwise [a]. *)
Definition max2 (a b : Qc) : Qc := if Qcltb a b then b else a.

Definition sentinel_price : Qc := (- 1)%Qc.

(** The rational [n / d], for writing prices and thresholds. *)
Definition q (n : Z) (d : positive) : Qc := Q2Qc (n # d).

(** ** PriceAtTime *)

Record PriceAtTime : Type := mkPriceAtTime {
  price : Qc;
  datetime : Z
}.

(** ** LocalSymbolStorage *)

Record LocalSymbolStorage : Type := mkStorage {
  lifetime : Z;
  _price_history : gmap Qc PriceAtTime;
  _max_key : Qc
}.

(** [LocalSymbolStorage.__init__]; [now] is the reading of
    [datetime.datetime.now()] taken by the constructor. *)
Definition new_storage (lifetime : Z) (now : Z) : LocalSymbolStorage :=
  {| lifetime := lifetime;
     _price_history := {[ sentinel_price := mkPriceAtTime sentinel_price now ]};
     _max_key := sentinel_price |}.

(** [max(self._price_history.keys())]: [None] stands for the [ValueError]
    Python raises on an empty iterable. *)
Definition max_of_keys (h : gmap Qc PriceAtTime) : option Qc :=
  map_fold (fun k _ acc =>
              match acc with
              | None => Some k
              | Some a => Some (max2 a k)
              end) None h.

(** The [while True] loop of [store].  Each round that does not leave the
    loop removes one entry, so [fuel] bounds the number of rounds. *)
Fixpoint evict_loop (fuel : nat) (obs : PriceAtTime) (s : LocalSymbolStorage)
  : result unit * LocalSymbolStorage :=
  match fuel with
  | O => (Raise OutOfFuel, s)
  | S fuel' =>
      match _price_history s !! _max_key s with
      | None => (Raise AttributeError, s)
      | Some top =>
          if lifetime s <? datetime obs - datetime top then
            let h' := delete (_max_key s) (_price_history s) in
            match max_of_keys h' with
            | None =>
                (Raise ValueError,
                 {| lifetime := lifetime s; _price_history := h';
                    _max_key := _max_key s |})
            | Some k =>
                evict_loop fuel' obs
                  {| lifetime := lifetime s; _price_history := h';
                     _max_key := k |}
            end
          else (Ok tt, s)
      end
  end.

(** [LocalSymbolStorage.store] *)
Definition store (obs : PriceAtTime) (s : LocalSymbolStorage)
  : result unit * LocalSymbolStorage :=
  match evict_loop (S (size (_price_history s))) obs s with
  | (Ok _, s1) =>
      (Ok tt,
       {| lifetime := lifetime s1;
          _price_history := <[ price obs := obs ]> (_price_history s1);
          _max_key := max2 (price obs) (_max_key s1) |})
  | (Raise e, s1) => (Raise e, s1)
  end.

(** [LocalSymbolStorage.get_price] *)
Definition get_price (s : LocalSymbolStorage) : Qc := _max_key s.

(** Feeding a list of observations to a store, stopping at the first
    exception as a Python caller that does not catch it would. *)
Fixpoint store_all (l : list PriceAtTime) (s : LocalSymbolStorage)
  : result unit * LocalSymbolStorage :=
  match l with
  | [] => (Ok tt, s)
  | obs :: rest =>
      match store obs s with
      | (Ok _, s') => store_all rest s'
      | (Raise e, s') => (Raise e, s')
      end
  end.

(** ** The comparison metric *)

(** [DROP_RELATIVE = lambda old, new: (old - new) / new]; Python's true
    division raises [ZeroDivisionError] exactly when the divisor is zero. *)
Definition DROP_RELATIVE (old new : Qc) : result Qc :=
  if decide (new = 0%Qc) then Raise ZeroDivisionError
  else Ok ((old - new) / new)%Qc.

(** ** Alert service *)

(** What [alert] is called with: the message names the symbol and shows
    [diff * 100]; the rendering to two decimals is not modelled. *)
Record Alert : Type := mkAlert {
  alert_symbol : string;
  alert_percent : Qc
}.

(** The alert service is one object shared by all monitors; its state is the
    list of the calls it has received, oldest first. *)
Definition alert (msg : Alert) (log : list Alert) : list Alert := log ++ [msg].

(** ** SymbolMonitor *)

Record SymbolMonitor : Type := mkMonitor {
  symbol : string;
  threshold : Qc;
  calc : Qc -> Qc -> result Qc;
  _storage : LocalSymbolStorage
}.

(** [SymbolMonitor.__init__] with [storage=None]: the monitor builds its own
    storage with a lifetime of one hour. *)
Definition hour : Z := 3600000000.

Definition new_monitor (symbol : string) (threshold : Qc)
    (calc : Qc -> Qc -> result Qc) (now : Z) : SymbolMonitor :=
  {| symbol := symbol; threshold := threshold; calc := calc;
     _storage := new_storage hour now |}.

Definition with_storage (m : SymbolMonitor) (s : LocalSymbolStorage)
  : SymbolMonitor :=
  {| symbol := symbol m; threshold := threshold m; calc := calc m;
     _storage := s |}.

(** [SymbolMonitor.reg_price]; [now] is the reading of
    [datetime.datetime.now()] taken when the observation is built. *)
Definition reg_price (p : Qc) (now : Z) (st : SymbolMonitor * list Alert)
  : result unit * (SymbolMonitor * list Alert) :=
  let '(m, log) := st in
  let stored := get_price (_storage m) in
  match calc m stored p with
  | Raise e => (Raise e, (m, log))
  | Ok diff =>
      let log' :=
        if Qcltb (threshold m) diff
        then alert (mkAlert (symbol m) (diff * Q2Qc 100)%Qc) log
        else log in
      let '(r, s') := store (mkPriceAtTime p now) (_storage m) in
      (r, (with_storage m s', log'))
  end.

(** A monitor driven by a sequence of ticks [(price, now)].  The driver
    ([create_websocket]) does not catch exceptions, so the run stops at the
    first one. *)
Fixpoint reg_prices (ticks : list (Qc * Z)) (st : SymbolMonitor * list Alert)
  : result unit * (SymbolMonitor * list Alert) :=
  match ticks with
  | [] => (Ok tt, st)
  | (p, now) :: rest =>
      match reg_price p now st with
      | (Ok _, st') => reg_prices rest st'
      | (Raise e, st') => (Raise e, st')
      end
  end.

(** Every tick of the run finds the comparison at or below the threshold:
    the value of [calc] on the storage's current reference price and the
    new price does not exceed [threshold].  The check follows the run, so it
    looks at each tick in the state the earlier ticks have left. *)
Fixpoint within_threshold (ticks : list (Qc * Z))
    (st : SymbolMonitor * list Alert) : bool :=
  match ticks with
  | [] => true
  | (p, now) :: rest =>
      match calc (fst st) (get_price (_storage (fst st))) p with
      | Raise _ => true
      | Ok diff =>
          negb (Qcltb (threshold (fst st)) diff) &&
          match reg_price p now st with
          | (Ok _, st') => within_threshold rest st'
          | (Raise _, _) => true
          end
      end
  end.

(** The cached maximum and every key of the history are at most [B]. *)
Definition bounded_by (B : Qc) (s : LocalSymbolStorage) : Prop :=
  (_max_key s <= B)%Qc /\
  forall k, is_Some (_price_history s !! k) -> (k <= B)%Qc.

(** ** Dispatcher *)

Record SymbolConfig : Type := mkConfig {
  cfg_symbol : string;
  alert_threshold : Qc
}.

Definition symbols_config : list SymbolConfig :=
  [ {| cfg_symbol := "xrpusdt"; alert_threshold := q 1 100 |} ].

Definition stream_name (c : SymbolConfig) : string :=
  (cfg_symbol c ++ "@trade")%string.

(** The loop of [init_monitors]: a later entry with the same stream name
    replaces an earlier one.  [clock i] is the reading of the clock taken by
    the constructor of the [i]-th monitor. *)
Fixpoint build_monitors (clock : nat -> Z) (i : nat) (config : list SymbolConfig)
    (monitors : gmap string SymbolMonitor) : gmap string SymbolMonitor :=
  match config with
  | [] => monitors
  | c :: rest =>
      build_monitors clock (S i) rest
        (<[ stream_name c :=
              new_monitor (cfg_symbol c) (alert_threshold c) DROP_RELATIVE
                (clock i) ]> monitors)
  end.

Definition init_monitors (clock : nat -> Z) (config : list SymbolConfig)
  : gmap string SymbolMonitor :=
  build_monitors clock 0 config ∅.

(** A message after [json.loads]: its ["stream"] field and the number read
    from [data.p]. *)
Record Message : Type := mkMessage {
  msg_stream : string;
  msg_price : Qc
}.

(** Truth value of a monitor object in [if not monitor]: the class defines
    neither [__bool__] nor [__len__], so every instance is true. *)
Definition truthy (m : SymbolMonitor) : bool := true.

(** The closure [handler] returned by [init_monitors], over the table
    [monitors] and the shared alert service. *)
Definition handler (msg : Message) (now : Z)
    (w : gmap string SymbolMonitor * list Alert)
  : result unit * (gmap string SymbolMonitor * list Alert) :=
  let '(monitors, log) := w in
  let stream := msg_stream msg in
  match monitors !! stream with
  | None => (Raise (KeyError stream), w)
  | Some monitor =>
      if negb (truthy monitor) then (Raise (MonitorNotCreated stream), w)
      else
        let '(r, (monitor', log')) := reg_price (msg_price msg) now (monitor, log) in
        (r, (<[ stream := monitor' ]> monitors, log'))
  end.

(** ** Predicates used in the statements *)

(** [k] is a key of [h] and no key of [h] is larger. *)
Definition is_max_key (h : gmap Qc PriceAtTime) (k : Qc) : Prop :=
  is_Some (h !! k) /\ forall k', is_Some (h !! k') -> (k' <= k)%Qc.

(** The cached maximum is a key of the history and no key is larger. *)
Definition storage_inv (s : LocalSymbolStorage) : Prop :=
  is_max_key (_price_history s) (_max_key s).


(** ** Example runs *)

(** The monitor of the unit tests: symbol ["test"], threshold [0.01], the
    default comparison, constructed at [now]. *)
Definition test_monitor (now : Z) : SymbolMonitor :=
  new_monitor "test" (q 1 100) DROP_RELATIVE now.

(** Three observations that all stay within a one-hour window. *)
Definition window_run : list PriceAtTime :=
  [ mkPriceAtTime (q 10 1) 1; mkPriceAtTime (q 100 1) 2;
    mkPriceAtTime (q 99 1) (hour + 2) ].

(** A real observation above the sentinel, then one that arrives more than
    an hour after the sentinel was installed at time [0]. *)
Definition sentinel_run : list PriceAtTime :=
  [ mkPriceAtTime (q 10 1) 1; mkPriceAtTime (q 11 1) (hour + 1) ].

(** The test monitor after [100] at time [1] and [1] at time [hour]: an
    hour and two microseconds after the start its reference price is still
    [100], whose observation is by then out of the window. *)
Definition stale_reference_monitor : SymbolMonitor :=
  fst (snd (reg_prices [(q 100 1, 1); (q 1 1, hour)] (test_monitor 0, []))).

(** A steady feed: [n] observations of price [10], one every hour, the
    first one an hour after [t]. *)
Fixpoint steady_feed (t : Z) (n : nat) : list PriceAtTime :=
  match n with
  | O => []
  | S n' => mkPriceAtTime (q 10 1) (t + hour) :: steady_feed (t + hour) n'
  end.

(** A storage holding [100] and [50], both stored long ago, and a recent
    [30]; the next observation finds [100] and [50] out of the window. *)
Definition cascade_before : LocalSymbolStorage :=
  snd (store_all [ mkPriceAtTime (q 100 1) 1; mkPriceAtTime (q 50 1) 2;
                   mkPriceAtTime (q 30 1) (hour + 1) ]
         (new_storage hour 0)).

Definition cascade_obs : PriceAtTime := mkPriceAtTime (q 40 1) (hour + 3).

(** ** Runs with a clock that does not go back *)

(** The timestamps of [l] are non-decreasing, starting at or after [t]. *)
Fixpoint nondecreasing (t : Z) (l : list PriceAtTime) : Prop :=
  match l with
  | [] => True
  | obs :: rest => t <= datetime obs /\ nondecreasing (datetime obs) rest
  end.

(** Each observation of [l] comes at most [L] after the one before it, the
    first one at most [L] after [t]. *)
Fixpoint gaps_within (L t : Z) (l : list PriceAtTime) : Prop :=
  match l with
  | [] => True
  | obs :: rest => datetime obs - t <= L /\ gaps_within L (datetime obs) rest
  end.

(** The prices of [ticks] are positive and never fall: each is at least
    the one before it, the first at least [B]. *)
Fixpoint rising (B : Qc) (ticks : list (Qc * Z)) : Prop :=
  match ticks with
  | [] => True
  | (p, _) :: rest => (0 < p)%Qc /\ (B <= p)%Qc /\ rising p rest
  end.

(** ** The state set up by [test_lifetime] *)

(** The test writes two entries into the history of a fresh storage and
    sets the cached maximum by hand: [100] stored at [now] and [500] stored
    one hour and one minute before, with [_max_key = 500]. *)
Definition minute : Z := 60000000.

Definition lifetime_test_storage (now0 now : Z) : LocalSymbolStorage :=
  {| lifetime := hour;
     _price_history :=
       <[ q 500 1 := mkPriceAtTime (q 500 1) (now - (hour + minute)) ]>
         (<[ q 100 1 := mkPriceAtTime (q 100 1) now ]>
            (_price_history (new_storage hour now0)));
     _max_key := q 500 1 |}.

(** ** The receive loop *)

(** The body of [create_websocket] after the connection is made: each
    received message is handed to [handler]; an exception ends the loop.
    The list holds the messages received so far, each with the clock
    reading taken while it is handled. *)
Fixpoint handle_all (msgs : list (Message * Z))
    (w : gmap string SymbolMonitor * list Alert)
  : result unit * (gmap string SymbolMonitor * list Alert) :=
  match msgs with
  | [] => (Ok tt, w)
  | (msg, now) :: rest =>
      match handler msg now w with
      | (Ok _, w') => handle_all rest w'
      | (Raise e, w') => (Raise e, w')
      end
  end.

(** The ticks of [msgs] addressed to [stream], in order. *)
Fixpoint ticks_for (stream : string) (msgs : list (Message * Z))
  : list (Qc * Z) :=
  match msgs with
  | [] => []
  | (msg, now) :: rest =>
      if decide (msg_stream msg = stream)
      then (msg_price msg, now) :: ticks_for stream rest
      else ticks_for stream rest
  end.

(** A configuration with two symbols and a feed that mixes their
    streams. *)
Definition two_symbols : list SymbolConfig :=
  [ mkConfig "xrpusdt" (q 1 100); mkConfig "btcusdt" (q 1 50) ].

Definition mixed_feed : list (Message * Z) :=
  [ (mkMessage "xrpusdt@trade" (q 10 1), 1);
    (mkMessage "btcusdt@trade" (q 5 1), 2);
    (mkMessage "xrpusdt@trade" (q 100 1), 3);
    (mkMessage "btcusdt@trade" (q 4 1), 4) ].

(** Comparisons between closed rationals, by evaluation. *)
Ltac Qc_closed :=
  first [ reflexivity | discriminate
        | vm_compute; first [ reflexivity | discriminate ] ].

(** * Properties *)

(** ** Order on prices *)

Lemma Qcltb_lt (x y : Qc) : Qcltb x y = true <-> (x < y)%Qc.
Proof.
  unfold Qcltb. rewrite Qclt_alt.
  destruct (x ?= y)%Qc; split; congruence.
Qed.

Lemma Qcltb_ge (x y : Qc) : Qcltb x y = false <-> (y <= x)%Qc.
Proof.
  rewrite Qcle_ngt, <- Qcltb_lt. destruct (Qcltb x y); split; congruence.
Qed.

Lemma max2_ge_l (a b : Qc) : (a <= max2 a b)%Qc.
Proof.
  unfold max2. destruct (Qcltb a b) eqn:E.
  - apply Qclt_le_weak, Qcltb_lt, E.
  - apply Qcle_refl.
Qed.

Lemma max2_ge_r (a b : Qc) : (b <= max2 a b)%Qc.
Proof.
  unfold max2. destruct (Qcltb a b) eqn:E.
  - apply Qcle_refl.
  - apply Qcltb_ge, E.
Qed.

Lemma max2_cases (a b : Qc) :
  (max2 a b = a /\ (b <= a)%Qc) \/ (max2 a b = b /\ (a < b)%Qc).
Proof.
  unfold max2. destruct (Qcltb a b) eqn:E.
  - right. split; [reflexivity | apply Qcltb_lt, E].
  - left. split; [reflexivity | apply Qcltb_ge, E].
Qed.

(** ** The maximum of the keys *)

Lemma max_of_keys_empty : max_of_keys ∅ = None.
Proof. unfold max_of_keys. apply map_fold_empty. Qed.

Lemma max_of_keys_spec (h : gmap Qc PriceAtTime) :
  match max_of_keys h with
  | None => h = ∅
  | Some k => is_max_key h k
  end.
Proof.
  induction h as [|i x m Hi Hfirst IH] using map_first_key_ind.
  - now rewrite max_of_keys_empty.
  - unfold max_of_keys in *.
    rewrite map_fold_insert_first_key by assumption.
    destruct (map_fold _ None m) as [a|].
    + destruct IH as [Ha Hmax]. split.
      * destruct (max2_cases a i) as [[-> _]|[-> _]].
        -- rewrite lookup_insert_ne; [assumption|].
           intros ->. rewrite Hi in Ha. now destruct Ha.
        -- rewrite lookup_insert_eq. eauto.
      * intros k' Hk'. destruct (decide (i = k')) as [<-|Hne].
        -- apply max2_ge_r.
        -- rewrite lookup_insert_ne in Hk' by assumption.
           eapply Qcle_trans; [apply Hmax, Hk' | apply max2_ge_l].
    + subst m. split.
      * rewrite lookup_insert_eq. eauto.
      * intros k' Hk'. destruct (decide (i = k')) as [<-|Hne].
        -- apply Qcle_refl.
        -- rewrite lookup_insert_ne, lookup_empty in Hk' by assumption.
           now destruct Hk'.
Qed.

Lemma max_of_keys_None (h : gmap Qc PriceAtTime) :
  max_of_keys h = None <-> h = ∅.
Proof.
  split.
  - intros E. pose proof (max_of_keys_spec h) as H. now rewrite E in H.
  - intros ->. apply max_of_keys_empty.
Qed.

Lemma max_of_keys_Some (h : gmap Qc PriceAtTime) (k : Qc) :
  max_of_keys h = Some k -> is_max_key h k.
Proof.
  intros E. pose proof (max_of_keys_spec h) as H. now rewrite E in H.
Qed.

Lemma is_max_key_unique (h : gmap Qc PriceAtTime) (k1 k2 : Qc) :
  is_max_key h k1 -> is_max_key h k2 -> k1 = k2.
Proof.
  intros [H1 M1] [H2 M2]. apply Qcle_antisym; auto.
Qed.

(** ** The eviction loop *)

Lemma size_pos_of_lookup (h : gmap Qc PriceAtTime) (k : Qc) (o : PriceAtTime) :
  h !! k = Some o -> size h <> 0%nat.
Proof.
  intros Hk E. apply map_size_empty_inv in E. subst h.
  rewrite lookup_empty in Hk. discriminate.
Qed.

Lemma new_storage_inv (L now : Z) : storage_inv (new_storage L now).
Proof.
  split; simpl.
  - rewrite lookup_singleton_eq. eauto.
  - intros k' [o Ho]. apply lookup_singleton_Some in Ho as [<- _].
    apply Qcle_refl.
Qed.

(** The bound handed to the loop by [store] is never exhausted. *)
Lemma evict_loop_fuel (fuel : nat) (obs : PriceAtTime) (s : LocalSymbolStorage) :
  (size (_price_history s) < fuel)%nat ->
  fst (evict_loop fuel obs s) <> Raise OutOfFuel.
Proof.
  revert s. induction fuel as [|fuel IH]; intros s Hsz; [lia|].
  simpl. destruct (_price_history s !! _max_key s) as [top|] eqn:Htop;
    [|simpl; congruence].
  destruct (lifetime s <? datetime obs - datetime top); [|simpl; congruence].
  destruct (max_of_keys _) as [k|]; [|simpl; congruence].
  apply IH. simpl.
  rewrite map_size_delete, Htop.
  pose proof (size_pos_of_lookup _ _ _ Htop). lia.
Qed.

(** What a completed eviction loop leaves behind: the invariant, a cached
    maximum that is within the window, and exactly the entries of the
    history that are not above that maximum. *)
Lemma evict_loop_Ok (fuel : nat) (obs : PriceAtTime) (s s1 : LocalSymbolStorage) u :
  storage_inv s ->
  evict_loop fuel obs s = (Ok u, s1) ->
  storage_inv s1 /\ lifetime s1 = lifetime s /\
  (exists top, _price_history s1 !! _max_key s1 = Some top /\
               datetime obs - datetime top <= lifetime s) /\
  (forall k, _price_history s1 !! k =
             if decide (k <= _max_key s1)%Qc then _price_history s !! k else None) /\
  (forall k o, _price_history s !! k = Some o -> (_max_key s1 < k)%Qc ->
               lifetime s < datetime obs - datetime o).
Proof.
  revert s. induction fuel as [|fuel IH]; intros s Hinv; simpl; [congruence|].
  destruct (_price_history s !! _max_key s) as [top|] eqn:Htop; [|congruence].
  destruct (lifetime s <? datetime obs - datetime top) eqn:Hage.
  - destruct (max_of_keys _) as [k|] eqn:Hmax; [|congruence].
    intros Hloop. apply max_of_keys_Some in Hmax.
    apply IH in Hloop as (Hinv1 & HL & Htop1 & Hkeep & Hstale); [|exact Hmax].
    simpl in *.
    repeat split; try assumption; try apply Hinv1.
    + intros k0. rewrite Hkeep. case_decide as Hle; [|reflexivity].
      apply lookup_delete_ne. intros <-.
      destruct Hinv1 as [Hin1 _]. rewrite Hkeep in Hin1.
      rewrite decide_True in Hin1 by apply Qcle_refl.
      assert (_max_key s1 = _max_key s) as Heq.
      { apply Qcle_antisym; [|assumption].
        apply Hinv. destruct Hin1 as [o Ho].
        apply lookup_delete_Some in Ho as [_ Ho]. eauto. }
      rewrite Heq, lookup_delete_eq in Hin1. now destruct Hin1.
    + intros k0 o Ho Hlt. destruct (decide (k0 = _max_key s)) as [->|Hne].
      * apply Z.ltb_lt in Hage. congruence.
      * apply Hstale with k0; [|assumption]. now rewrite lookup_delete_ne.
  - intros [= <- <-]. apply Z.ltb_ge in Hage.
    repeat split; try apply Hinv; eauto.
    + intros k0. case_decide as Hle; [reflexivity|].
      destruct (_price_history s !! k0) eqn:Hk0; [|reflexivity].
      exfalso. apply Hle, Hinv. eauto.
    + intros k0 o Ho Hlt. exfalso.
      apply (Qclt_not_le _ _ Hlt), Hinv. eauto.
Qed.

(** Under the invariant the loop can only end normally or on the empty
    history. *)
Lemma evict_loop_Raise (fuel : nat) (obs : PriceAtTime) (s s1 : LocalSymbolStorage) e :
  storage_inv s ->
  (size (_price_history s) < fuel)%nat ->
  evict_loop fuel obs s = (Raise e, s1) ->
  e = ValueError /\ _price_history s1 = ∅ /\
  forall k o, _price_history s !! k = Some o ->
              lifetime s < datetime obs - datetime o.
Proof.
  revert s. induction fuel as [|fuel IH]; intros s Hinv Hsz; simpl; [lia|].
  destruct Hinv as [[top Htop] Hmax]. rewrite Htop.
  destruct (lifetime s <? datetime obs - datetime top) eqn:Hage; [|congruence].
  apply Z.ltb_lt in Hage.
  destruct (max_of_keys _) as [k|] eqn:Hk.
  - intros Hloop. apply max_of_keys_Some in Hk.
    apply IH in Hloop as (-> & Hempty & Hstale); [|exact Hk|].
    + repeat split; try assumption. simpl in Hstale.
      intros k0 o Ho. destruct (decide (k0 = _max_key s)) as [->|Hne].
      * congruence.
      * apply Hstale with k0. now rewrite lookup_delete_ne.
    + simpl. rewrite map_size_delete, Htop.
      pose proof (size_pos_of_lookup _ _ _ Htop). lia.
  - intros [= <- <-]. apply max_of_keys_None in Hk. simpl.
    repeat split; try assumption.
    intros k0 o Ho. destruct (decide (k0 = _max_key s)) as [->|Hne].
    + congruence.
    + assert (delete (_max_key s) (_price_history s) !! k0 = Some o) as Hd
        by now rewrite lookup_delete_ne.
      rewrite Hk, lookup_empty in Hd. discriminate.
Qed.

(** ** [store] *)

(** A completed [store] is a completed eviction loop followed by the
    insertion and the update of the cached maximum. *)
Lemma store_Ok_inv (obs : PriceAtTime) (s s' : LocalSymbolStorage) u :
  store obs s = (Ok u, s') ->
  exists s1,
    evict_loop (S (size (_price_history s))) obs s = (Ok tt, s1) /\
    s' = {| lifetime := lifetime s1;
            _price_history := <[ price obs := obs ]> (_price_history s1);
            _max_key := max2 (price obs) (_max_key s1) |}.
Proof.
  unfold store.
  destruct (evict_loop _ obs s) as [[[]|e] s1]; [|congruence].
  intros [= <-]. eauto.
Qed.

Lemma store_Raise_inv (obs : PriceAtTime) (s s' : LocalSymbolStorage) e :
  store obs s = (Raise e, s') ->
  evict_loop (S (size (_price_history s))) obs s = (Raise e, s').
Proof.
  unfold store.
  destruct (evict_loop _ obs s) as [[[]|e'] s1]; congruence.
Qed.

Lemma store_never_out_of_fuel (obs : PriceAtTime) (s : LocalSymbolStorage) :
  fst (store obs s) <> Raise OutOfFuel.
Proof.
  unfold store.
  pose proof (evict_loop_fuel (S (size (_price_history s))) obs s) as H.
  destruct (evict_loop _ obs s) as [[[]|e] s1]; simpl in *.
  - discriminate.
  - apply H. lia.
Qed.

(** While the entry under the cached maximum is within the window, [store]
    evicts nothing. *)
Lemma store_fresh (obs top : PriceAtTime) (s : LocalSymbolStorage) :
  _price_history s !! _max_key s = Some top ->
  datetime obs - datetime top <= lifetime s ->
  store obs s =
    (Ok tt, {| lifetime := lifetime s;
               _price_history := <[ price obs := obs ]> (_price_history s);
               _max_key := max2 (price obs) (_max_key s) |}).
Proof.
  intros Htop Hage. unfold store. simpl. rewrite Htop.
  apply Z.ltb_ge in Hage. now rewrite Hage.
Qed.

Lemma insert_max2_inv (obs : PriceAtTime) (h : gmap Qc PriceAtTime) (k : Qc) :
  is_max_key h k ->
  is_max_key (<[ price obs := obs ]> h) (max2 (price obs) k).
Proof.
  intros [Hk Hmax]. split.
  - destruct (max2_cases (price obs) k) as [[-> _]|[-> Hlt]].
    + rewrite lookup_insert_eq. eauto.
    + rewrite lookup_insert_ne; [assumption|].
      intros E. rewrite E in Hlt. now apply Qclt_not_eq in Hlt.
  - intros k' Hk'. destruct (decide (price obs = k')) as [<-|Hne].
    + apply max2_ge_l.
    + rewrite lookup_insert_ne in Hk' by assumption.
      eapply Qcle_trans; [apply Hmax, Hk' | apply max2_ge_r].
Qed.

(** The effect of a completed [store] on a storage that satisfies the
    invariant.  [m] is the cached maximum at the moment the loop stops: the
    keys above [m] are gone and were all out of the window, the keys up to
    [m] are untouched, and the new observation is written under its price. *)
Lemma store_Ok_spec (obs : PriceAtTime) (s s' : LocalSymbolStorage) u :
  storage_inv s ->
  store obs s = (Ok u, s') ->
  storage_inv s' /\ lifetime s' = lifetime s /\
  exists m top,
    _price_history s !! m = Some top /\
    datetime obs - datetime top <= lifetime s /\
    (forall k o, _price_history s !! k = Some o -> (m < k)%Qc ->
                 lifetime s < datetime obs - datetime o) /\
    _max_key s' = max2 (price obs) m /\
    forall k, _price_history s' !! k =
              if decide (price obs = k) then Some obs
              else if decide (k <= m)%Qc then _price_history s !! k
              else None.
Proof.
  intros Hinv Hst. apply store_Ok_inv in Hst as (s1 & Hloop & ->).
  apply evict_loop_Ok in Hloop
    as (Hinv1 & HL & (top & Htop & Hage) & Hkeep & Hstale); [|assumption].
  simpl. split; [|split].
  - apply insert_max2_inv, Hinv1.
  - assumption.
  - exists (_max_key s1), top. repeat split.
    + rewrite Hkeep, decide_True in Htop by apply Qcle_refl. assumption.
    + assumption.
    + assumption.
    + intros k. rewrite lookup_insert. case_decide; [reflexivity|].
      apply Hkeep.
Qed.

(** A [store] that raises from a storage satisfying the invariant raises
    [ValueError] out of [max] on the emptied history; it does so exactly
    when every entry is out of the window. *)
Lemma store_Raise_spec (obs : PriceAtTime) (s s' : LocalSymbolStorage) e :
  storage_inv s ->
  store obs s = (Raise e, s') ->
  e = ValueError /\ _price_history s' = ∅ /\
  forall k o, _price_history s !! k = Some o ->
              lifetime s < datetime obs - datetime o.
Proof.
  intros Hinv Hst. apply store_Raise_inv in Hst.
  eapply evict_loop_Raise; eauto.
Qed.

Lemma store_completes (obs : PriceAtTime) (s : LocalSymbolStorage) k o :
  storage_inv s ->
  _price_history s !! k = Some o ->
  datetime obs - datetime o <= lifetime s ->
  exists s', store obs s = (Ok tt, s').
Proof.
  intros Hinv Hk Hage.
  destruct (store obs s) as [[[]|e] s'] eqn:Hst; [eauto|].
  apply store_Raise_spec in Hst as (_ & _ & Hstale); [|assumption].
  specialize (Hstale _ _ Hk). lia.
Qed.

Lemma store_all_storage_inv (l : list PriceAtTime) :
  forall (s s' : LocalSymbolStorage) u,
    storage_inv s ->
    store_all l s = (Ok u, s') ->
    storage_inv s' /\ lifetime s' = lifetime s.
Proof.
  induction l as [|obs rest IH]; intros s s' u Hinv; simpl.
  - intros [= _ <-]. auto.
  - destruct (store obs s) as [[[]|e] s1] eqn:Hst; [|congruence].
    intros Hrest.
    apply store_Ok_spec in Hst as (Hinv1 & HL1 & _); [|assumption].
    apply IH in Hrest as [Hinv' HL']; [|assumption].
    split; [assumption | congruence].
Qed.

(** ** The sentinel and the empty history *)

(** C1.  The claim says that the eviction loop can never empty the history
    nor fail to recompute the maximum.  The code does both on a freshly
    constructed storage whose first observation comes more than [lifetime]
    after the construction: the sentinel is the only entry, it is evicted,
    and [max] over the empty history raises [ValueError], leaving the
    history empty. *)
Theorem store_after_gap_raises (L now0 : Z) (obs : PriceAtTime) :
  L < datetime obs - now0 ->
  store obs (new_storage L now0) =
    (Raise ValueError,
     {| lifetime := L; _price_history := ∅; _max_key := sentinel_price |}).
Proof.
  intros Hgap. unfold store, new_storage. simpl.
  rewrite lookup_singleton_eq. simpl.
  apply Z.ltb_lt in Hgap. rewrite Hgap.
  rewrite delete_singleton_eq, max_of_keys_empty. reflexivity.
Qed.

Lemma store_after_gap_raises_witness :
  hour < datetime (mkPriceAtTime (Q2Qc 10) (hour + 1)) - 0 /\
  store (mkPriceAtTime (Q2Qc 10) (hour + 1)) (new_storage hour 0) =
    (Raise ValueError,
     {| lifetime := hour; _price_history := ∅; _max_key := sentinel_price |}).
Proof.
  split; [reflexivity|].
  apply (store_after_gap_raises hour 0 (mkPriceAtTime (Q2Qc 10) (hour + 1))).
  reflexivity.
Defined.

(** ** The cached maximum *)




(** ** The sentinel entry *)

Lemma steady_feed_real (n : nat) :
  forall t, Forall (fun obs => (sentinel_price < price obs)%Qc) (steady_feed t n).
Proof.
  induction n as [|n IH]; intros t; simpl; constructor; [reflexivity|apply IH].
Qed.

Lemma steady_feed_completes (n : nat) :
  forall (s : LocalSymbolStorage) (t : Z) (top : PriceAtTime),
    lifetime s = hour ->
    _price_history s !! _max_key s = Some top ->
    datetime top = t ->
    _max_key s = sentinel_price \/ _max_key s = q 10 1 ->
    fst (store_all (steady_feed t n) s) = Ok tt.
Proof.
  induction n as [|n IH]; intros s t top HL Htop Ht Hmax; simpl; [reflexivity|].
  rewrite (store_fresh _ top)
    by (try assumption; cbn [datetime]; rewrite HL, Ht; lia).
  assert (max2 (q 10 1) (_max_key s) = q 10 1) as Hm
    by (destruct Hmax as [-> | ->]; reflexivity).
  apply IH with (top := mkPriceAtTime (q 10 1) (t + hour)); simpl.
  - assumption.
  - rewrite Hm. apply lookup_insert_eq.
  - reflexivity.
  - now right.
Qed.

Lemma store_all_sentinel (l : list PriceAtTime) :
  forall (s s' : LocalSymbolStorage) (sent : PriceAtTime) u,
    storage_inv s ->
    _price_history s !! sentinel_price = Some sent ->
    (forall k, is_Some (_price_history s !! k) -> (sentinel_price <= k)%Qc) ->
    Forall (fun obs => (sentinel_price < price obs)%Qc) l ->
    store_all l s = (Ok u, s') ->
    _price_history s' !! sentinel_price = Some sent.
Proof.
  induction l as [|obs rest IH]; intros s s' sent u Hinv Hsent Hlow Hreal; simpl.
  - intros [= _ <-]. assumption.
  - destruct (store obs s) as [[[]|e] s1] eqn:Hst; [|congruence].
    apply Forall_cons in Hreal as [Hobs Hreal].
    apply store_Ok_spec in Hst
      as (Hinv1 & _ & m & top & Hm & _ & _ & _ & Hlook); [|assumption].
    assert (sentinel_price <= m)%Qc as Hsm by (apply Hlow; eauto).
    apply IH; try assumption.
    + rewrite Hlook.
      rewrite decide_False by (intros E; rewrite E in Hobs;
                               now apply Qclt_not_eq in Hobs).
      now rewrite decide_True.
    + intros k. rewrite Hlook. case_decide as Hk.
      * intros _. subst k. now apply Qclt_le_weak.
      * case_decide; [apply Hlow|]. intros [? ?]; discriminate.
Qed.

(** C6, as stated, fails: after a real observation that exceeds the
    sentinel in value and a second one that arrives more than [lifetime]
    after the sentinel's time, the sentinel entry is still in the history.
    Nor does it go later: on a steady feed of one real observation an hour,
    every call completes and the sentinel is there after any number of
    them. *)
Lemma sentinel_survives_real_data :
  fst (store_all sentinel_run (new_storage hour 0)) = Ok tt /\
  _price_history (snd (store_all sentinel_run (new_storage hour 0)))
    !! sentinel_price = Some (mkPriceAtTime sentinel_price 0) /\
  (forall n : nat,
      fst (store_all (steady_feed 0 n) (new_storage hour 0)) = Ok tt /\
      _price_history (snd (store_all (steady_feed 0 n) (new_storage hour 0)))
        !! sentinel_price = Some (mkPriceAtTime sentinel_price 0)).
Proof.
  split; [vm_compute; reflexivity|]. split; [vm_compute; reflexivity|].
  intros n.
  assert (fst (store_all (steady_feed 0 n) (new_storage hour 0)) = Ok tt) as Hok.
  { apply steady_feed_completes with (top := mkPriceAtTime sentinel_price 0).
    - reflexivity.
    - apply lookup_singleton_eq.
    - reflexivity.
    - now left. }
  split; [exact Hok|].
  destruct (store_all (steady_feed 0 n) (new_storage hour 0)) as [r s'] eqn:Hrun.
  simpl in *. subst r.
  eapply store_all_sentinel;
    [apply new_storage_inv| | |apply steady_feed_real|exact Hrun].
  - apply lookup_singleton_eq.
  - simpl. intros k [o Ho]. apply lookup_singleton_Some in Ho as [<- _].
    apply Qcle_refl.
Qed.

(** C6, amended.  When every real observation has a price above the
    sentinel's [-1], the sentinel entry installed at construction is still
    in the history after every completed [store]: neither a larger price
    nor the passing of time removes it. *)
Theorem sentinel_persists (L now0 : Z) (l : list PriceAtTime)
    (s : LocalSymbolStorage) u :
  Forall (fun obs => (sentinel_price < price obs)%Qc) l ->
  store_all l (new_storage L now0) = (Ok u, s) ->
  _price_history s !! sentinel_price = Some (mkPriceAtTime sentinel_price now0).
Proof.
  intros Hreal Hrun.
  eapply store_all_sentinel; [apply new_storage_inv| | |exact Hreal|exact Hrun].
  - simpl. apply lookup_singleton_eq.
  - simpl. intros k [o Ho]. apply lookup_singleton_Some in Ho as [<- _].
    apply Qcle_refl.
Qed.

Lemma sentinel_persists_witness :
  Forall (fun obs => (sentinel_price < price obs)%Qc) sentinel_run /\
  store_all sentinel_run (new_storage hour 0) =
    (Ok tt, snd (store_all sentinel_run (new_storage hour 0))) /\
  _price_history (snd (store_all sentinel_run (new_storage hour 0)))
    !! sentinel_price = Some (mkPriceAtTime sentinel_price 0).
Proof.
  assert (Forall (fun obs => (sentinel_price < price obs)%Qc) sentinel_run) as H
    by (repeat constructor).
  split; [exact H|].
  split; [vm_compute; reflexivity|].
  apply (sentinel_persists hour 0 sentinel_run
           (snd (store_all sentinel_run (new_storage hour 0))) tt H).
  vm_compute; reflexivity.
Defined.

(** ** What [store] removes and what it keeps *)

(** C10, as stated, fails: [50] is strictly below the current maximum [100]
    when [store] is called, and the call removes it, because once [100] is
    evicted [50] is the maximum and is out of the window as well. *)
Lemma store_removes_below_maximum :
  _price_history cascade_before !! q 50 1 = Some (mkPriceAtTime (q 50 1) 2) /\
  Qcltb (q 50 1) (get_price cascade_before) = true /\
  fst (store cascade_obs cascade_before) = Ok tt /\
  _price_history (snd (store cascade_obs cascade_before)) !! q 50 1 = None.
Proof. vm_compute. repeat split; reflexivity. Qed.

(** C10, amended.  A completed [store] removes exactly a top segment of
    the keys.  Let [m] be the key at which the eviction loop stops: it is a
    key of the old history whose observation is within the window, every
    entry above it is out of the window, and so [m] is the largest key with
    an observation within the window.  Every entry above [m] is removed
    (unless the new observation is filed under its price), and every entry
    at or below [m] whose price is not the stored one is kept unchanged,
    however old its observation is.  Hence an entry stays in the history as
    long as some key at or above it holds an observation within the
    window. *)
Theorem store_keeps_below_surviving_maximum (obs : PriceAtTime)
    (s s' : LocalSymbolStorage) u :
  storage_inv s ->
  store obs s = (Ok u, s') ->
  (exists m top,
     _price_history s !! m = Some top /\
     datetime obs - datetime top <= lifetime s /\
     (forall k o, _price_history s !! k = Some o -> (m < k)%Qc ->
                  lifetime s < datetime obs - datetime o) /\
     (forall k, (m < k)%Qc -> k <> price obs ->
                _price_history s' !! k = None) /\
     (forall k, (k <= m)%Qc -> k <> price obs ->
                _price_history s' !! k = _price_history s !! k)) /\
  _price_history s' !! price obs = Some obs /\
  (forall k o k' o',
     _price_history s !! k = Some o ->
     _price_history s !! k' = Some o' ->
     datetime obs - datetime o' <= lifetime s ->
     (k <= k')%Qc -> k <> price obs ->
     _price_history s' !! k = Some o) /\
  (forall k o,
     _price_history s !! k = Some o ->
     _price_history s' !! k = None ->
     lifetime s < datetime obs - datetime o /\
     forall k' o', _price_history s !! k' = Some o' ->
                   datetime obs - datetime o' <= lifetime s -> (k' < k)%Qc).
Proof.
  intros Hinv Hst.
  apply store_Ok_spec in Hst
    as (_ & _ & m & top & Hm & Hfresh & Hstale & _ & Hlook); [|assumption].
  assert (forall k' o', _price_history s !! k' = Some o' ->
            datetime obs - datetime o' <= lifetime s -> (k' <= m)%Qc) as Hwin.
  { intros k' o' Hk' Hage. apply Qcnot_lt_le. intros Hlt.
    specialize (Hstale _ _ Hk' Hlt). lia. }
  split; [|split; [|split]].
  - exists m, top. repeat split; try assumption.
    + intros k Hlt Hne. rewrite Hlook.
      rewrite decide_False by congruence.
      rewrite decide_False by (now apply Qclt_not_le). reflexivity.
    + intros k Hle Hne. rewrite Hlook.
      rewrite decide_False by congruence. now rewrite decide_True.
  - rewrite Hlook. now rewrite decide_True.
  - intros k o k' o' Hk Hk' Hage Hle Hne. rewrite Hlook.
    rewrite decide_False by congruence.
    rewrite decide_True; [assumption|].
    eapply Qcle_trans; [exact Hle | eapply Hwin; eassumption].
  - intros k o Hk Hgone. rewrite Hlook in Hgone.
    case_decide; [discriminate|].
    case_decide as Hle; [congruence|].
    apply Qcnot_le_lt in Hle. split; [eapply Hstale; eassumption|].
    intros k' o' Hk' Hage.
    eapply Qcle_lt_trans; [eapply Hwin; eassumption | exact Hle].
Qed.

Lemma store_keeps_below_surviving_maximum_witness :
  storage_inv cascade_before /\
  store cascade_obs cascade_before =
    (Ok tt, snd (store cascade_obs cascade_before)) /\
  _price_history cascade_before !! sentinel_price
    = Some (mkPriceAtTime sentinel_price 0) /\
  _price_history cascade_before !! q 30 1
    = Some (mkPriceAtTime (q 30 1) (hour + 1)) /\
  _price_history (snd (store cascade_obs cascade_before)) !! sentinel_price
    = Some (mkPriceAtTime sentinel_price 0).
Proof.
  assert (storage_inv cascade_before) as Hinv.
  { apply (store_all_storage_inv
             [ mkPriceAtTime (q 100 1) 1; mkPriceAtTime (q 50 1) 2;
               mkPriceAtTime (q 30 1) (hour + 1) ]
             (new_storage hour 0) cascade_before tt (new_storage_inv hour 0)).
    vm_compute; reflexivity. }
  assert (store cascade_obs cascade_before =
          (Ok tt, snd (store cascade_obs cascade_before))) as Hst
    by (vm_compute; reflexivity).
  assert (_price_history cascade_before !! sentinel_price
          = Some (mkPriceAtTime sentinel_price 0)) as Hsent
    by (vm_compute; reflexivity).
  assert (_price_history cascade_before !! q 30 1
          = Some (mkPriceAtTime (q 30 1) (hour + 1))) as H30
    by (vm_compute; reflexivity).
  split; [exact Hinv|]. split; [exact Hst|].
  split; [exact Hsent|]. split; [exact H30|].
  destruct (store_keeps_below_surviving_maximum cascade_obs cascade_before
              (snd (store cascade_obs cascade_before)) tt Hinv Hst)
    as (_ & _ & Hkeep & _).
  apply (Hkeep sentinel_price (mkPriceAtTime sentinel_price 0)
           (q 30 1) (mkPriceAtTime (q 30 1) (hour + 1)) Hsent H30);
    discriminate.
Defined.

(** ** The comparison metric *)

Lemma DROP_RELATIVE_nonzero (old new : Qc) :
  new <> Q2Qc 0 ->
  DROP_RELATIVE old new = Ok ((old - new) / new)%Qc.
Proof.
  intros Hnz. unfold DROP_RELATIVE. now rewrite decide_False.
Qed.

(** C7, as stated, fails: with a new price of zero the default comparison
    raises [ZeroDivisionError]. *)
Lemma DROP_RELATIVE_raises_at_zero :
  DROP_RELATIVE (Q2Qc 1) (Q2Qc 0) = Raise ZeroDivisionError.
Proof. reflexivity. Qed.

(** C7, amended.  For every old price and every new price other than zero
    the default comparison returns [(old - new) / new] without raising. *)
Theorem DROP_RELATIVE_total_off_zero (old new : Qc) :
  new <> Q2Qc 0 ->
  DROP_RELATIVE old new = Ok ((old - new) / new)%Qc.
Proof.
  apply DROP_RELATIVE_nonzero.
Qed.

Lemma DROP_RELATIVE_total_off_zero_witness :
  Q2Qc 99 <> Q2Qc 0 /\
  DROP_RELATIVE (Q2Qc 100) (Q2Qc 99) = Ok ((Q2Qc 100 - Q2Qc 99) / Q2Qc 99)%Qc.
Proof.
  split; [discriminate|].
  apply (DROP_RELATIVE_total_off_zero (Q2Qc 100) (Q2Qc 99)). discriminate.
Defined.

(** ** The first tick *)

Lemma Qcinv_pos (p : Qc) : (0 < p)%Qc -> (0 < / p)%Qc.
Proof.
  unfold Qclt, Qcinv. intros Hp.
  change (0 < Qred (/ p))%Q. rewrite Qred_correct.
  apply Qinv_lt_0_compat. exact Hp.
Qed.

Lemma drop_from_sentinel_negative (p : Qc) :
  (0 < p)%Qc -> ((sentinel_price - p) / p < 0)%Qc.
Proof.
  intros Hp. unfold Qcdiv.
  rewrite <- (Qcmult_0_l (/ p)).
  apply Qcmult_lt_compat_r; [now apply Qcinv_pos|].
  apply Qclt_minus_iff.
  replace (0 + - (sentinel_price - p))%Qc with (Q2Qc 1 + p)%Qc
    by (unfold sentinel_price; ring).
  apply Qcplus_pos_pos; [reflexivity | assumption].
Qed.

(** C9.  On a freshly constructed monitor with a positive threshold and the
    default comparison, the first [reg_price] with a positive price calls the
    alert service not at all: the alert log is left as it was. *)
Theorem first_tick_never_alerts (sym : string) (theta p : Qc) (now0 now : Z)
    (log : list Alert) :
  (0 < theta)%Qc ->
  (0 < p)%Qc ->
  snd (snd (reg_price p now (new_monitor sym theta DROP_RELATIVE now0, log))) = log.
Proof.
  intros Htheta Hp. unfold reg_price, new_monitor, get_price. simpl.
  rewrite DROP_RELATIVE_nonzero
    by (intros E; rewrite E in Hp; now apply Qclt_not_eq in Hp).
  assert (Qcltb theta ((sentinel_price - p) / p)%Qc = false) as ->.
  { apply Qcltb_ge, Qclt_le_weak.
    eapply Qclt_trans; [apply drop_from_sentinel_negative|]; assumption. }
  now destruct (store _ _).
Qed.

Lemma first_tick_never_alerts_witness :
  (0 < q 1 100)%Qc /\ (0 < q 10 1)%Qc /\
  snd (snd (reg_price (q 10 1) 1
              (new_monitor "test" (q 1 100) DROP_RELATIVE 0, []))) = [].
Proof.
  split; [reflexivity|]. split; [reflexivity|].
  apply (first_tick_never_alerts "test" (q 1 100) (q 10 1) 0 1 []);
    reflexivity.
Defined.

(** ** [reg_price] *)

(** C5, as stated, fails: the observation is not stored on every call.
    On the test monitor a price of zero makes the default comparison raise
    before [store] is reached, and the history has no entry under [0]. *)
Lemma reg_price_zero_stores_nothing :
  fst (reg_price (q 0 1) 1 (test_monitor 0, [])) = Raise ZeroDivisionError /\
  _price_history
    (_storage (fst (snd (reg_price (q 0 1) 1 (test_monitor 0, [])))))
    !! q 0 1 = None.
Proof. vm_compute. split; reflexivity. Qed.

(** C5, amended.  For every call of [reg_price] the comparison is applied
    to the reference price read from the storage as it is before the new
    observation is inserted.  If the comparison raises, the call raises
    with nothing stored and no alert.  Otherwise the alert is sent exactly
    when the comparison exceeds the threshold, and then, whether or not an
    alert was sent, [store] is run with the new observation on the
    untouched storage: the call's outcome is that of [store], it completes
    whenever the cached maximum is the largest key and some entry is within
    the window, and when it completes the observation is in the history
    under its price and the reference price is at least that price. *)
Theorem reg_price_compares_then_stores (m : SymbolMonitor) (log : list Alert)
    (p : Qc) (now : Z) :
  (forall e,
      calc m (get_price (_storage m)) p = Raise e ->
      reg_price p now (m, log) = (Raise e, (m, log))) /\
  (forall diff,
      calc m (get_price (_storage m)) p = Ok diff ->
      snd (snd (reg_price p now (m, log))) =
        (if Qcltb (threshold m) diff
         then log ++ [mkAlert (symbol m) (diff * Q2Qc 100)%Qc] else log) /\
      fst (reg_price p now (m, log)) =
        fst (store (mkPriceAtTime p now) (_storage m)) /\
      _storage (fst (snd (reg_price p now (m, log)))) =
        snd (store (mkPriceAtTime p now) (_storage m)) /\
      (fst (reg_price p now (m, log)) = Ok tt ->
       _price_history (_storage (fst (snd (reg_price p now (m, log))))) !! p
         = Some (mkPriceAtTime p now) /\
       (p <= get_price (_storage (fst (snd (reg_price p now (m, log))))))%Qc) /\
      (storage_inv (_storage m) ->
       (exists k o, _price_history (_storage m) !! k = Some o /\
                    now - datetime o <= lifetime (_storage m)) ->
       fst (reg_price p now (m, log)) = Ok tt)).
Proof.
  split.
  - intros e Hcalc. unfold reg_price. now rewrite Hcalc.
  - intros diff Hcalc. unfold reg_price. rewrite Hcalc.
    destruct (store (mkPriceAtTime p now) (_storage m)) as [r s'] eqn:Hst.
    cbn [fst snd _storage with_storage].
    split; [reflexivity|]. split; [reflexivity|]. split; [reflexivity|].
    split.
    + intros ->. apply store_Ok_inv in Hst as (s1 & _ & ->).
      cbn [_price_history get_price _max_key price].
      split; [apply lookup_insert_eq | apply max2_ge_l].
    + intros Hinv (k & o & Hk & Hage).
      destruct (store_completes (mkPriceAtTime p now) (_storage m) k o
                  Hinv Hk Hage) as [s'' Hok].
      rewrite Hok in Hst. now injection Hst as <- _.
Qed.

Lemma reg_price_compares_then_stores_witness :
  get_price (_storage stale_reference_monitor) = q 100 1 /\
  calc stale_reference_monitor
       (get_price (_storage stale_reference_monitor)) (q 1 1) = Ok (q 99 1) /\
  snd (snd (reg_price (q 1 1) (hour + 2) (stale_reference_monitor, []))) =
    [mkAlert "test" (q 9900 1)] /\
  fst (reg_price (q 1 1) (hour + 2) (stale_reference_monitor, [])) = Ok tt /\
  _price_history
    (_storage (fst (snd (reg_price (q 1 1) (hour + 2)
                           (stale_reference_monitor, [])))))
    !! q 1 1 = Some (mkPriceAtTime (q 1 1) (hour + 2)) /\
  get_price
    (_storage (fst (snd (reg_price (q 1 1) (hour + 2)
                           (stale_reference_monitor, []))))) = q 1 1.
Proof.
  assert (calc stale_reference_monitor
            (get_price (_storage stale_reference_monitor)) (q 1 1)
          = Ok (q 99 1)) as Hcalc by (vm_compute; reflexivity).
  destruct (proj2 (reg_price_compares_then_stores stale_reference_monitor []
                     (q 1 1) (hour + 2)) (q 99 1) Hcalc)
    as (Hlog & Hres & Hsto & Hin & _).
  assert (fst (reg_price (q 1 1) (hour + 2) (stale_reference_monitor, []))
          = Ok tt) as Hok by (rewrite Hres; vm_compute; reflexivity).
  split; [vm_compute; reflexivity|]. split; [exact Hcalc|].
  split; [rewrite Hlog; vm_compute; reflexivity|].
  split; [exact Hok|].
  split; [exact (proj1 (Hin Hok))|].
  rewrite Hsto. vm_compute; reflexivity.
Defined.

(** ** The dispatcher *)

(** C8.  The claim asks for the designated "monitor not created" error on a
    stream that has no monitor.  The code raises [KeyError] from the table
    lookup instead, before it reaches the statement that raises the
    designated error; the table and the alert log are left as they were. *)
Theorem handler_unknown_stream_raises_KeyError
    (monitors : gmap string SymbolMonitor) (log : list Alert)
    (msg : Message) (now : Z) :
  monitors !! msg_stream msg = None ->
  handler msg now (monitors, log) =
    (Raise (KeyError (msg_stream msg)), (monitors, log)) /\
  fst (handler msg now (monitors, log)) <>
    Raise (MonitorNotCreated (msg_stream msg)).
Proof.
  intros Habsent. unfold handler. rewrite Habsent. simpl.
  split; [reflexivity | discriminate].
Qed.

Lemma handler_unknown_stream_raises_KeyError_witness :
  init_monitors (fun _ => 0) symbols_config
    !! msg_stream (mkMessage "btcusdt@trade" (q 1 1)) = None /\
  handler (mkMessage "btcusdt@trade" (q 1 1)) 5
      (init_monitors (fun _ => 0) symbols_config, []) =
    (Raise (KeyError (msg_stream (mkMessage "btcusdt@trade" (q 1 1)))),
     (init_monitors (fun _ => 0) symbols_config, [])) /\
  fst (handler (mkMessage "btcusdt@trade" (q 1 1)) 5
         (init_monitors (fun _ => 0) symbols_config, [])) <>
    Raise (MonitorNotCreated (msg_stream (mkMessage "btcusdt@trade" (q 1 1)))).
Proof.
  split; [vm_compute; reflexivity|].
  apply (handler_unknown_stream_raises_KeyError
           (init_monitors (fun _ => 0) symbols_config) []
           (mkMessage "btcusdt@trade" (q 1 1)) 5).
  vm_compute; reflexivity.
Defined.

(** ** Runs of a monitor *)

(** A tick that finds the entry under the cached maximum within the window:
    nothing is evicted, and the alert depends on the comparison alone. *)
Lemma reg_price_fresh (m : SymbolMonitor) (log : list Alert) (p : Qc) (now : Z)
    (diff : Qc) (top : PriceAtTime) :
  calc m (get_price (_storage m)) p = Ok diff ->
  _price_history (_storage m) !! _max_key (_storage m) = Some top ->
  now - datetime top <= lifetime (_storage m) ->
  reg_price p now (m, log) =
    (Ok tt,
     (with_storage m
        {| lifetime := lifetime (_storage m);
           _price_history :=
             <[ p := mkPriceAtTime p now ]> (_price_history (_storage m));
           _max_key := max2 p (_max_key (_storage m)) |},
      if Qcltb (threshold m) diff
      then alert (mkAlert (symbol m) (diff * Q2Qc 100)%Qc) log else log)).
Proof.
  intros Hcalc Htop Hage. unfold reg_price. rewrite Hcalc.
  rewrite (store_fresh (mkPriceAtTime p now) top) by assumption.
  reflexivity.
Qed.

(** C3.  A fresh monitor with threshold [0.01] and the default comparison is
    fed [10], [100], [99], each tick within the one-hour window of the
    observation that is the maximum when it arrives.  The first two calls
    send no alert; the third sends one, computed from the reference [100]
    as [(100 - 99) / 99]; all three calls complete, so the alert service is
    called exactly once. *)
Theorem alert_on_crossing (now0 t1 t2 t3 : Z) :
  t1 - now0 <= hour -> t2 - t1 <= hour -> t3 - t2 <= hour ->
  snd (snd (reg_prices [(q 10 1, t1)] (test_monitor now0, []))) = [] /\
  snd (snd (reg_prices [(q 10 1, t1); (q 100 1, t2)] (test_monitor now0, [])))
    = [] /\
  fst (reg_prices [(q 10 1, t1); (q 100 1, t2); (q 99 1, t3)]
         (test_monitor now0, [])) = Ok tt /\
  snd (snd (reg_prices [(q 10 1, t1); (q 100 1, t2); (q 99 1, t3)]
              (test_monitor now0, [])))
    = [mkAlert "test" ((q 100 1 - q 99 1) / q 99 1 * Q2Qc 100)%Qc].
Proof.
  intros H1 H2 H3. unfold reg_prices, test_monitor.
  erewrite (reg_price_fresh _ _ _ t1);
    [|vm_compute; reflexivity|vm_compute; reflexivity|exact H1].
  erewrite (reg_price_fresh _ _ _ t2);
    [|vm_compute; reflexivity|vm_compute; reflexivity|exact H2].
  erewrite (reg_price_fresh _ _ _ t3);
    [|vm_compute; reflexivity|vm_compute; reflexivity|exact H3].
  repeat split; vm_compute; reflexivity.
Qed.

Lemma alert_on_crossing_witness :
  1 - 0 <= hour /\ 2 - 1 <= hour /\ 3 - 2 <= hour /\
  snd (snd (reg_prices [(q 10 1, 1)] (test_monitor 0, []))) = [] /\
  snd (snd (reg_prices [(q 10 1, 1); (q 100 1, 2)] (test_monitor 0, [])))
    = [] /\
  fst (reg_prices [(q 10 1, 1); (q 100 1, 2); (q 99 1, 3)]
         (test_monitor 0, [])) = Ok tt /\
  snd (snd (reg_prices [(q 10 1, 1); (q 100 1, 2); (q 99 1, 3)]
              (test_monitor 0, [])))
    = [mkAlert "test" ((q 100 1 - q 99 1) / q 99 1 * Q2Qc 100)%Qc].
Proof.
  split; [discriminate|]. split; [discriminate|]. split; [discriminate|].
  apply (alert_on_crossing 0 1 2 3); discriminate.
Defined.

(** *** Ticks that stay within the threshold *)

Lemma reg_price_quiet (m : SymbolMonitor) (log : list Alert) (p : Qc) (now : Z)
    (diff : Qc) :
  calc m (get_price (_storage m)) p = Ok diff ->
  Qcltb (threshold m) diff = false ->
  exists r s', reg_price p now (m, log) = (r, (with_storage m s', log)) /\
               (r, s') = store (mkPriceAtTime p now) (_storage m).
Proof.
  intros Hcalc Hle. unfold reg_price. rewrite Hcalc, Hle.
  destruct (store _ _) as [r s']. eauto.
Qed.

Lemma within_threshold_no_alert (ticks : list (Qc * Z)) :
  forall (m : SymbolMonitor) (log : list Alert),
    within_threshold ticks (m, log) = true ->
    snd (snd (reg_prices ticks (m, log))) = log.
Proof.
  induction ticks as [|[p now] rest IH]; intros m log; [reflexivity|].
  cbn [within_threshold reg_prices fst].
  destruct (calc m (get_price (_storage m)) p) as [diff|e] eqn:Hcalc.
  - intros [Hle Hrest]%andb_true_iff. apply negb_true_iff in Hle.
    destruct (reg_price_quiet m log p now diff Hcalc Hle) as (r & s' & Hreg & _).
    rewrite Hreg in *. destruct r as [[]|e]; [|reflexivity].
    now apply IH.
  - intros _. unfold reg_price. now rewrite Hcalc.
Qed.

(** The cached maximum and every key are bounded by [B]. *)
Lemma evict_loop_bounded (B : Qc) (fuel : nat) (obs : PriceAtTime) :
  forall s, bounded_by B s -> bounded_by B (snd (evict_loop fuel obs s)).
Proof.
  induction fuel as [|fuel IH]; intros s Hb; simpl; [assumption|].
  destruct (_price_history s !! _max_key s) as [top|]; [|assumption].
  destruct (lifetime s <? datetime obs - datetime top); [|assumption].
  destruct Hb as [Hmax Hkeys].
  assert (forall k, is_Some (delete (_max_key s) (_price_history s) !! k) ->
                    (k <= B)%Qc) as Hkeys'.
  { intros k [o Ho]. apply lookup_delete_Some in Ho as [_ Ho].
    apply Hkeys. eauto. }
  destruct (max_of_keys _) as [k|] eqn:Hk.
  - apply IH. split; simpl; [|assumption].
    apply Hkeys'. apply max_of_keys_Some in Hk. apply Hk.
  - split; simpl; assumption.
Qed.

Lemma store_bounded (B : Qc) (obs : PriceAtTime) (s : LocalSymbolStorage) :
  bounded_by B s -> (price obs <= B)%Qc -> bounded_by B (snd (store obs s)).
Proof.
  intros Hb Hp. unfold store.
  pose proof (evict_loop_bounded B (S (size (_price_history s))) obs s Hb) as H1.
  destruct (evict_loop _ obs s) as [[[]|e] s1]; simpl in *; [|assumption].
  destruct H1 as [Hmax Hkeys]. split; simpl.
  - destruct (max2_cases (price obs) (_max_key s1)) as [[-> _]|[-> _]];
      assumption.
  - intros k. rewrite lookup_insert. case_decide as Hk.
    + intros _. now subst k.
    + apply Hkeys.
Qed.

Lemma bounded_by_weaken (B B' : Qc) (s : LocalSymbolStorage) :
  (B <= B')%Qc -> bounded_by B s -> bounded_by B' s.
Proof.
  intros HB [Hmax Hkeys]. split.
  - eapply Qcle_trans; eassumption.
  - intros k Hk. eapply Qcle_trans; [apply Hkeys, Hk | assumption].
Qed.

(** The default comparison stays within the threshold when the reference is
    at most [p + theta * p]. *)
Lemma drop_within_threshold (theta ref p : Qc) :
  (0 < p)%Qc -> (ref <= p + theta * p)%Qc ->
  Qcltb theta ((ref - p) / p)%Qc = false.
Proof.
  intros Hp Href. apply Qcltb_ge.
  apply Qcmult_lt_0_le_reg_r with p; [assumption|].
  rewrite (Qcmult_comm ((ref - p) / p) p), Qcmult_div_r
    by (intros E; rewrite E in Hp; now apply Qclt_not_eq in Hp).
  apply Qcle_minus_iff. apply Qcle_minus_iff in Href.
  replace (theta * p + - (ref - p))%Qc with (p + theta * p + - ref)%Qc by ring.
  assumption.
Qed.

(** One tick of a monitor with the default comparison whose storage is
    bounded by [B]: no alert when [B <= p + theta * p], and the storage is
    then bounded by any [B'] above both [B] and [p]. *)
Lemma reg_price_bounded (B B' : Qc) (m : SymbolMonitor) (log : list Alert)
    (p : Qc) (now : Z) :
  calc m = DROP_RELATIVE ->
  (0 < p)%Qc ->
  bounded_by B (_storage m) ->
  (B <= p + threshold m * p)%Qc ->
  (B <= B')%Qc -> (p <= B')%Qc ->
  exists r m', reg_price p now (m, log) = (r, (m', log)) /\
               calc m' = DROP_RELATIVE /\ threshold m' = threshold m /\
               bounded_by B' (_storage m').
Proof.
  intros Hcalc Hp Hb HB HBB' HpB'.
  assert (calc m (get_price (_storage m)) p =
          Ok ((get_price (_storage m) - p) / p)%Qc) as Hd.
  { rewrite Hcalc. apply DROP_RELATIVE_nonzero.
    intros E; rewrite E in Hp; now apply Qclt_not_eq in Hp. }
  assert (Qcltb (threshold m) ((get_price (_storage m) - p) / p)%Qc = false)
    as Hle.
  { apply drop_within_threshold; [assumption|].
    eapply Qcle_trans; [exact (proj1 Hb) | assumption]. }
  destruct (reg_price_quiet m log p now _ Hd Hle) as (r & s' & Hreg & Hst).
  exists r, (with_storage m s'). split; [assumption|].
  split; [assumption|]. split; [reflexivity|].
  simpl. replace s' with (snd (store (mkPriceAtTime p now) (_storage m)))
    by now rewrite <- Hst.
  apply store_bounded; [|assumption].
  now apply bounded_by_weaken with B.
Qed.

Lemma new_storage_bounded (L now : Z) :
  bounded_by sentinel_price (new_storage L now).
Proof.
  split; simpl; [apply Qcle_refl|].
  intros k [o Ho]. apply lookup_singleton_Some in Ho as [<- _].
  apply Qcle_refl.
Qed.

Lemma no_alert_just_under (now0 t1 t2 t3 : Z) :
  snd (snd (reg_prices [(q 10 1, t1); (q 100 1, t2); (q 998 10, t3)]
              (test_monitor now0, []))) = [].
Proof.
  unfold reg_prices.
  destruct (reg_price_bounded sentinel_price (q 10 1) (test_monitor now0) []
              (q 10 1) t1) as (r1 & m1 & -> & Hc1 & Ht1 & Hb1);
    [reflexivity|Qc_closed|apply new_storage_bounded|Qc_closed..|].
  destruct r1 as [[]|e1]; [|reflexivity].
  destruct (reg_price_bounded (q 10 1) (q 100 1) m1 [] (q 100 1) t2)
    as (r2 & m2 & -> & Hc2 & Ht2 & Hb2);
    [assumption|Qc_closed|assumption|rewrite Ht1; Qc_closed|Qc_closed..|].
  destruct r2 as [[]|e2]; [|reflexivity].
  destruct (reg_price_bounded (q 100 1) (q 100 1) m2 [] (q 998 10) t3)
    as (r3 & m3 & -> & _ & _ & _);
    [assumption|Qc_closed|assumption|rewrite Ht2, Ht1; Qc_closed|Qc_closed..|].
  now destruct r3 as [[]|e3].
Qed.

(** C4.  For every monitor and every finite sequence of ticks on which the
    comparison of each price with the storage's current reference price
    never exceeds the threshold, the alert service is never called: the
    alert log after the run is the log before it.  In particular the test
    monitor (threshold [0.01], default comparison) fed [10], [100], [99.8]
    sends no alert, whatever the times of the ticks. *)
Theorem no_alert_within_threshold :
  (forall (ticks : list (Qc * Z)) (m : SymbolMonitor) (log : list Alert),
      within_threshold ticks (m, log) = true ->
      snd (snd (reg_prices ticks (m, log))) = log) /\
  (forall now0 t1 t2 t3 : Z,
      snd (snd (reg_prices [(q 10 1, t1); (q 100 1, t2); (q 998 10, t3)]
                  (test_monitor now0, []))) = []).
Proof.
  split.
  - intros ticks. apply within_threshold_no_alert.
  - apply no_alert_just_under.
Qed.

Lemma no_alert_within_threshold_witness :
  within_threshold [(q 10 1, 1); (q 100 1, 2); (q 998 10, 3)]
    (test_monitor 0, []) = true /\
  snd (snd (reg_prices [(q 10 1, 1); (q 100 1, 2); (q 998 10, 3)]
              (test_monitor 0, []))) = [].
Proof.
  split; [vm_compute; reflexivity|].
  apply (proj1 no_alert_within_threshold
           [(q 10 1, 1); (q 100 1, 2); (q 998 10, 3)] (test_monitor 0) []).
  vm_compute; reflexivity.
Defined.

(** * Further properties of the storage *)

(** ** Termination of the eviction loop *)

Lemma evict_loop_fuel_irrelevant (f1 : nat) :
  forall (f2 : nat) (obs : PriceAtTime) (s : LocalSymbolStorage),
    (size (_price_history s) < f1)%nat ->
    (size (_price_history s) < f2)%nat ->
    evict_loop f1 obs s = evict_loop f2 obs s.
Proof.
  induction f1 as [|f1 IH]; intros f2 obs s H1 H2; [lia|].
  destruct f2 as [|f2]; [lia|]. simpl.
  destruct (_price_history s !! _max_key s) as [top|] eqn:Htop; [|reflexivity].
  destruct (lifetime s <? datetime obs - datetime top); [|reflexivity].
  destruct (max_of_keys _) as [k|]; [|reflexivity].
  pose proof (size_pos_of_lookup _ _ _ Htop).
  apply IH; simpl; rewrite map_size_delete, Htop; lia.
Qed.

(** X1.  The [while True] loop of [store] terminates: it makes at most as
    many evictions as the history has entries.  Run with any bound above the
    number of entries, the loop gives the outcome and state it gives with
    the bound [store] uses, and never exhausts the bound. *)
Theorem evict_loop_terminates (fuel : nat) (obs : PriceAtTime)
    (s : LocalSymbolStorage) :
  (size (_price_history s) < fuel)%nat ->
  evict_loop fuel obs s = evict_loop (S (size (_price_history s))) obs s /\
  fst (evict_loop fuel obs s) <> Raise OutOfFuel.
Proof.
  intros Hsz. split.
  - apply evict_loop_fuel_irrelevant; lia.
  - now apply evict_loop_fuel.
Qed.

Lemma evict_loop_terminates_witness :
  (size (_price_history cascade_before) < 100)%nat /\
  evict_loop 100 cascade_obs cascade_before =
    evict_loop (S (size (_price_history cascade_before)))
      cascade_obs cascade_before /\
  fst (evict_loop 100 cascade_obs cascade_before) <> Raise OutOfFuel.
Proof.
  assert (size (_price_history cascade_before) < 100)%nat as H
    by (vm_compute; lia).
  split; [exact H|].
  apply (evict_loop_terminates 100 cascade_obs cascade_before H).
Defined.

(** ** When [store] completes *)

(** X2.  On a storage whose cached maximum is its largest key, [store]
    completes exactly when some entry is within [lifetime] of the new
    observation.  Otherwise it raises [ValueError] and leaves the history
    empty. *)
Theorem store_completes_iff (obs : PriceAtTime) (s : LocalSymbolStorage) :
  storage_inv s ->
  (fst (store obs s) = Ok tt <->
   exists k o, _price_history s !! k = Some o /\
               datetime obs - datetime o <= lifetime s) /\
  (fst (store obs s) <> Ok tt ->
   fst (store obs s) = Raise ValueError /\
   _price_history (snd (store obs s)) = ∅).
Proof.
  intros Hinv. split; [split|].
  - intros Hok. destruct (store obs s) as [r s'] eqn:Hst. simpl in Hok. subst r.
    apply store_Ok_spec in Hst as (_ & _ & m & top & Hm & Hage & _);
      [|assumption].
    eauto.
  - intros (k & o & Hk & Hage).
    destruct (store_completes obs s k o Hinv Hk Hage) as [s' ->]. reflexivity.
  - intros Hnok. destruct (store obs s) as [[[]|e] s'] eqn:Hst; simpl in *.
    + congruence.
    + apply store_Raise_spec in Hst as (-> & Hempty & _); auto.
Qed.

Lemma store_completes_iff_witness :
  storage_inv (new_storage hour 0) /\
  (fst (store (mkPriceAtTime (q 10 1) 1) (new_storage hour 0)) = Ok tt <->
   exists k o, _price_history (new_storage hour 0) !! k = Some o /\
               datetime (mkPriceAtTime (q 10 1) 1) - datetime o
                 <= lifetime (new_storage hour 0)) /\
  (fst (store (mkPriceAtTime (q 10 1) 1) (new_storage hour 0)) <> Ok tt ->
   fst (store (mkPriceAtTime (q 10 1) 1) (new_storage hour 0))
     = Raise ValueError /\
   _price_history (snd (store (mkPriceAtTime (q 10 1) 1) (new_storage hour 0)))
     = ∅).
Proof.
  split; [apply new_storage_inv|].
  apply (store_completes_iff (mkPriceAtTime (q 10 1) 1) (new_storage hour 0)).
  apply new_storage_inv.
Defined.

(** ** After a failure *)

Lemma store_on_empty (obs : PriceAtTime) (s : LocalSymbolStorage) :
  _price_history s = ∅ -> store obs s = (Raise AttributeError, s).
Proof.
  intros Hempty. unfold store. simpl. now rewrite Hempty, lookup_empty.
Qed.

(** X3.  A [store] that raises leaves the storage unusable: the history is
    empty, so every later [store] finds no entry under the cached maximum
    and raises [AttributeError] without changing anything, while [get_price]
    keeps returning the stale cached maximum. *)
Theorem store_after_failure (obs obs' : PriceAtTime)
    (s s' : LocalSymbolStorage) e :
  storage_inv s ->
  store obs s = (Raise e, s') ->
  store obs' s' = (Raise AttributeError, s') /\
  get_price (snd (store obs' s')) = get_price s'.
Proof.
  intros Hinv Hst.
  apply store_Raise_spec in Hst as (_ & Hempty & _); [|assumption].
  rewrite (store_on_empty obs' s' Hempty). split; reflexivity.
Qed.

Lemma store_after_failure_witness :
  storage_inv (new_storage hour 0) /\
  store (mkPriceAtTime (q 10 1) (hour + 1)) (new_storage hour 0) =
    (Raise ValueError,
     snd (store (mkPriceAtTime (q 10 1) (hour + 1)) (new_storage hour 0))) /\
  store (mkPriceAtTime (q 11 1) (hour + 2))
      (snd (store (mkPriceAtTime (q 10 1) (hour + 1)) (new_storage hour 0))) =
    (Raise AttributeError,
     snd (store (mkPriceAtTime (q 10 1) (hour + 1)) (new_storage hour 0))) /\
  get_price
    (snd (store (mkPriceAtTime (q 11 1) (hour + 2))
            (snd (store (mkPriceAtTime (q 10 1) (hour + 1))
                    (new_storage hour 0))))) =
  get_price (snd (store (mkPriceAtTime (q 10 1) (hour + 1)) (new_storage hour 0))).
Proof.
  split; [apply new_storage_inv|].
  split; [vm_compute; reflexivity|].
  apply (store_after_failure (mkPriceAtTime (q 10 1) (hour + 1))
           (mkPriceAtTime (q 11 1) (hour + 2)) (new_storage hour 0)
           (snd (store (mkPriceAtTime (q 10 1) (hour + 1)) (new_storage hour 0)))
           ValueError).
  - apply new_storage_inv.
  - vm_compute; reflexivity.
Defined.

(** ** Gaps in the feed *)

Lemma store_all_gaps (l : list PriceAtTime) :
  forall (s : LocalSymbolStorage) (t : Z),
    storage_inv s ->
    (exists k o, _price_history s !! k = Some o /\ datetime o = t) ->
    (forall k o, _price_history s !! k = Some o -> datetime o <= t) ->
    nondecreasing t l ->
    (fst (store_all l s) = Ok tt <-> gaps_within (lifetime s) t l).
Proof.
  induction l as [|obs rest IH]; intros s t Hinv Hlast Hold Hmono; simpl.
  - split; auto.
  - destruct Hmono as [Ht Hmono].
    destruct (store obs s) as [[[]|e] s1] eqn:Hst.
    + apply store_Ok_spec in Hst
        as (Hinv1 & HL1 & m & top & Hm & Hage & _ & _ & Hlook); [|assumption].
      rewrite <- HL1. rewrite (IH s1 (datetime obs)); try assumption.
      * rewrite HL1. specialize (Hold _ _ Hm). split.
        -- intros Hrest. split; [lia|assumption].
        -- intros [_ Hrest]. exact Hrest.
      * exists (price obs), obs. rewrite Hlook.
        now rewrite decide_True.
      * intros k o. rewrite Hlook. case_decide; [intros [= <-]; lia|].
        case_decide; [|discriminate]. intros Ho. specialize (Hold _ _ Ho). lia.
    + apply store_Raise_spec in Hst as (_ & _ & Hstale); [|assumption].
      destruct Hlast as (k & o & Hk & <-). specialize (Hstale _ _ Hk).
      simpl. split; [discriminate|]. intros [Hgap _]. lia.
Qed.

(** X4.  With a clock that does not go back, a run of [store] calls on a
    fresh storage completes exactly when no observation comes more than
    [lifetime] after the one before it (the first one after the
    construction).  A longer silence makes the next [store] raise. *)
Theorem store_all_completes_iff_gaps (L now0 : Z) (l : list PriceAtTime) :
  nondecreasing now0 l ->
  (fst (store_all l (new_storage L now0)) = Ok tt <-> gaps_within L now0 l).
Proof.
  intros Hmono.
  apply (store_all_gaps l (new_storage L now0) now0);
    [apply new_storage_inv| | |exact Hmono].
  - exists sentinel_price, (mkPriceAtTime sentinel_price now0). simpl.
    split; [apply lookup_singleton_eq | reflexivity].
  - simpl. intros k o Ho. apply lookup_singleton_Some in Ho as [_ <-].
    simpl. lia.
Qed.

Lemma store_all_completes_iff_gaps_witness :
  nondecreasing 0 window_run /\
  (fst (store_all window_run (new_storage hour 0)) = Ok tt <->
   gaps_within hour 0 window_run).
Proof.
  assert (nondecreasing 0 window_run) as H
    by (simpl; repeat split; discriminate).
  split; [exact H|].
  apply (store_all_completes_iff_gaps hour 0 window_run H).
Defined.

(** ** The reference price is the maximum over the window *)






(** ** What the history holds *)

Lemma store_all_entries (l : list PriceAtTime) :
  forall (s s' : LocalSymbolStorage) (P : PriceAtTime -> Prop) u,
    storage_inv s ->
    (forall k o, _price_history s !! k = Some o -> price o = k /\ P o) ->
    Forall P l ->
    store_all l s = (Ok u, s') ->
    forall k o, _price_history s' !! k = Some o -> price o = k /\ P o.
Proof.
  induction l as [|obs rest IH]; intros s s' P u Hinv Hent HP; simpl.
  - intros [= _ <-]. assumption.
  - destruct (store obs s) as [[[]|e] s1] eqn:Hst; [|congruence].
    apply Forall_cons in HP as [Hobs HP].
    apply store_Ok_spec in Hst
      as (Hinv1 & _ & m & top & _ & _ & _ & _ & Hlook); [|assumption].
    apply IH; try assumption.
    intros k o. rewrite Hlook. case_decide as Hk.
    + intros [= <-]. auto.
    + case_decide; [apply Hent | discriminate].
Qed.

(** X6.  After every completed run of [store] calls on a fresh storage,
    each entry of the history is filed under its own price and is either
    the sentinel installed by the constructor or one of the observations
    of the run; in particular the reference price is [-1] or a price that
    was stored. *)
Theorem history_entries_are_observations (L now0 : Z) (l : list PriceAtTime)
    (s : LocalSymbolStorage) u :
  store_all l (new_storage L now0) = (Ok u, s) ->
  (forall k o, _price_history s !! k = Some o ->
               price o = k /\
               (o = mkPriceAtTime sentinel_price now0 \/ o ∈ l)) /\
  (get_price s = sentinel_price \/ exists o, o ∈ l /\ price o = get_price s).
Proof.
  intros Hrun.
  assert (forall k o, _price_history s !! k = Some o ->
            price o = k /\
            (o = mkPriceAtTime sentinel_price now0 \/ o ∈ l)) as Hent.
  { eapply (store_all_entries l (new_storage L now0));
      [apply new_storage_inv| | |exact Hrun].
    - simpl. intros k o Ho. apply lookup_singleton_Some in Ho as [<- <-]. auto.
    - apply Forall_forall. auto. }
  split; [exact Hent|].
  destruct (store_all_storage_inv l _ _ _ (new_storage_inv L now0) Hrun)
    as [[[top Htop] _] _].
  destruct (Hent _ _ Htop) as [Hp [->|Hin]]; [left|right].
  - symmetry. exact Hp.
  - exists top. auto.
Qed.

Lemma history_entries_are_observations_witness :
  store_all window_run (new_storage hour 0) =
    (Ok tt, snd (store_all window_run (new_storage hour 0))) /\
  (forall k o,
      _price_history (snd (store_all window_run (new_storage hour 0))) !! k
        = Some o ->
      price o = k /\ (o = mkPriceAtTime sentinel_price 0 \/ o ∈ window_run)) /\
  (get_price (snd (store_all window_run (new_storage hour 0))) = sentinel_price \/
   exists o, o ∈ window_run /\
             price o = get_price (snd (store_all window_run (new_storage hour 0)))).
Proof.
  split; [vm_compute; reflexivity|].
  apply (history_entries_are_observations hour 0 window_run
           (snd (store_all window_run (new_storage hour 0))) tt).
  vm_compute; reflexivity.
Defined.

Lemma evict_loop_lifetime (fuel : nat) (obs : PriceAtTime) :
  forall s, lifetime (snd (evict_loop fuel obs s)) = lifetime s.
Proof.
  induction fuel as [|fuel IH]; intros s; simpl; [reflexivity|].
  destruct (_price_history s !! _max_key s) as [top|]; [|reflexivity].
  destruct (lifetime s <? datetime obs - datetime top); [|reflexivity].
  destruct (max_of_keys _) as [k|]; [|reflexivity].
  now rewrite IH.
Qed.

(** X7.  A completed [store] files the observation under its price,
    replacing whatever was there, and the reference price read afterwards
    is at least the stored price; the lifetime is not touched. *)
Theorem store_then_read (obs : PriceAtTime) (s s' : LocalSymbolStorage) u :
  store obs s = (Ok u, s') ->
  _price_history s' !! price obs = Some obs /\
  (price obs <= get_price s')%Qc /\
  lifetime s' = lifetime s.
Proof.
  intros Hst. apply store_Ok_inv in Hst as (s1 & Hloop & ->). simpl.
  split; [apply lookup_insert_eq|]. split; [apply max2_ge_l|].
  rewrite <- (evict_loop_lifetime (S (size (_price_history s))) obs s).
  now rewrite Hloop.
Qed.

Lemma store_then_read_witness :
  store cascade_obs cascade_before =
    (Ok tt, snd (store cascade_obs cascade_before)) /\
  _price_history (snd (store cascade_obs cascade_before)) !! price cascade_obs
    = Some cascade_obs /\
  (price cascade_obs <= get_price (snd (store cascade_obs cascade_before)))%Qc /\
  lifetime (snd (store cascade_obs cascade_before)) = lifetime cascade_before.
Proof.
  split; [vm_compute; reflexivity|].
  apply (store_then_read cascade_obs cascade_before
           (snd (store cascade_obs cascade_before)) tt).
  vm_compute; reflexivity.
Defined.

(** ** One stale maximum *)

(** X8.  When the entry under the cached maximum is out of the window and
    the largest remaining key holds an entry within it, [store] evicts
    exactly that one entry, files the observation and caches the larger of
    the observation's price and that remaining key.  If the observation's
    price is a new key, the history has as many entries as before: the
    situation of [test_lifetime], which expects three. *)
Theorem store_evicts_one_stale_maximum (obs top top2 : PriceAtTime)
    (s : LocalSymbolStorage) (k2 : Qc) :
  _price_history s !! _max_key s = Some top ->
  lifetime s < datetime obs - datetime top ->
  is_max_key (delete (_max_key s) (_price_history s)) k2 ->
  delete (_max_key s) (_price_history s) !! k2 = Some top2 ->
  datetime obs - datetime top2 <= lifetime s ->
  store obs s =
    (Ok tt,
     {| lifetime := lifetime s;
        _price_history :=
          <[ price obs := obs ]> (delete (_max_key s) (_price_history s));
        _max_key := max2 (price obs) k2 |}) /\
  (delete (_max_key s) (_price_history s) !! price obs = None ->
   size (_price_history (snd (store obs s))) = size (_price_history s)).
Proof.
  intros Htop Hstale Hmax Htop2 Hfresh.
  assert (max_of_keys (delete (_max_key s) (_price_history s)) = Some k2) as Hk.
  { pose proof (max_of_keys_spec (delete (_max_key s) (_price_history s))) as H.
    destruct (max_of_keys _) as [k|].
    - f_equal. eapply is_max_key_unique; eassumption.
    - rewrite H, lookup_empty in Htop2. discriminate. }
  assert (size (delete (_max_key s) (_price_history s)) <> 0%nat) as Hsz
    by (eapply size_pos_of_lookup; eassumption).
  rewrite map_size_delete, Htop in Hsz.
  assert (store obs s =
    (Ok tt,
     {| lifetime := lifetime s;
        _price_history :=
          <[ price obs := obs ]> (delete (_max_key s) (_price_history s));
        _max_key := max2 (price obs) k2 |})) as Hst.
  { unfold store. destruct (size (_price_history s)) as [|n]; [simpl in Hsz; lia|].
    apply Z.ltb_lt in Hstale. apply Z.ltb_ge in Hfresh.
    simpl. rewrite Htop, Hstale, Hk. simpl. rewrite Htop2, Hfresh. reflexivity. }
  split; [exact Hst|].
  intros Hnew. rewrite Hst. simpl.
  rewrite map_size_insert_None by assumption.
  rewrite map_size_delete, Htop.
  pose proof (size_pos_of_lookup _ _ _ Htop). lia.
Qed.

Lemma store_evicts_one_stale_maximum_witness :
  _price_history (lifetime_test_storage 0 (2 * hour))
    !! _max_key (lifetime_test_storage 0 (2 * hour))
    = Some (mkPriceAtTime (q 500 1) (2 * hour - (hour + minute))) /\
  size (_price_history (lifetime_test_storage 0 (2 * hour))) = 3%nat /\
  store (mkPriceAtTime (q 101 1) (2 * hour + 1))
      (lifetime_test_storage 0 (2 * hour)) =
    (Ok tt,
     {| lifetime := hour;
        _price_history :=
          <[ q 101 1 := mkPriceAtTime (q 101 1) (2 * hour + 1) ]>
            (delete (q 500 1)
               (_price_history (lifetime_test_storage 0 (2 * hour))));
        _max_key := q 101 1 |}) /\
  size (_price_history
          (snd (store (mkPriceAtTime (q 101 1) (2 * hour + 1))
                  (lifetime_test_storage 0 (2 * hour))))) = 3%nat.
Proof.
  assert (is_max_key
            (delete (_max_key (lifetime_test_storage 0 (2 * hour)))
               (_price_history (lifetime_test_storage 0 (2 * hour))))
            (q 100 1)) as Hmax.
  { apply max_of_keys_Some. vm_compute. reflexivity. }
  destruct (store_evicts_one_stale_maximum
              (mkPriceAtTime (q 101 1) (2 * hour + 1))
              (mkPriceAtTime (q 500 1) (2 * hour - (hour + minute)))
              (mkPriceAtTime (q 100 1) (2 * hour))
              (lifetime_test_storage 0 (2 * hour)) (q 100 1))
    as [Hst Hsize];
    [vm_compute; reflexivity | reflexivity | exact Hmax
    | vm_compute; reflexivity | discriminate |].
  split; [vm_compute; reflexivity|].
  split; [vm_compute; reflexivity|].
  split; [exact Hst|].
  rewrite Hsize; vm_compute; reflexivity.
Defined.

(** * Further properties of the monitor *)

Lemma drop_positive_means_below (ref p : Qc) :
  (0 < p)%Qc -> (0 < (ref - p) / p)%Qc -> (p < ref)%Qc.
Proof.
  intros Hp Hd.
  apply (Qcmult_lt_compat_r _ _ p Hp) in Hd.
  rewrite Qcmult_0_l, (Qcmult_comm ((ref - p) / p) p), Qcmult_div_r in Hd
    by (intros E; rewrite E in Hp; now apply Qclt_not_eq in Hp).
  apply Qclt_minus_iff. exact Hd.
Qed.

(** X9.  With the default comparison, a threshold that is not negative
    and a positive price [p], [reg_price] alerts only on a drop: when the
    reference price read before the call is at most [p] the alert log is
    left as it was, and whenever the log changes it is extended by one
    alert that carries the monitor's symbol and a positive percentage, and
    the reference price was strictly above [p]. *)
Theorem reg_price_alerts_only_on_drop (m : SymbolMonitor) (log : list Alert)
    (p : Qc) (now : Z) :
  calc m = DROP_RELATIVE ->
  (0 <= threshold m)%Qc ->
  (0 < p)%Qc ->
  ((get_price (_storage m) <= p)%Qc ->
   snd (snd (reg_price p now (m, log))) = log) /\
  (snd (snd (reg_price p now (m, log))) = log \/
   exists a,
     snd (snd (reg_price p now (m, log))) = log ++ [a] /\
     alert_symbol a = symbol m /\
     (0 < alert_percent a)%Qc /\
     (p < get_price (_storage m))%Qc).
Proof.
  intros Hcalc Hth Hp.
  assert (p <> Q2Qc 0) as Hnz
    by (intros E; rewrite E in Hp; now apply Qclt_not_eq in Hp).
  unfold reg_price. rewrite Hcalc, (DROP_RELATIVE_nonzero _ _ Hnz).
  destruct (store _ _) as [r s']. cbn [fst snd].
  destruct (Qcltb (threshold m) ((get_price (_storage m) - p) / p)%Qc) eqn:E.
  - apply Qcltb_lt in E.
    assert (0 < (get_price (_storage m) - p) / p)%Qc as Hd
      by (eapply Qcle_lt_trans; eassumption).
    pose proof (drop_positive_means_below _ _ Hp Hd) as Hlt.
    split.
    + intros Hle. now apply Qcle_not_lt in Hle.
    + right. eexists. split; [reflexivity|]. cbn [alert_symbol alert_percent].
      split; [reflexivity|]. split; [|assumption].
      rewrite <- (Qcmult_0_l (Q2Qc 100)).
      apply Qcmult_lt_compat_r; [reflexivity | assumption].
  - split; [reflexivity | now left].
Qed.

Lemma reg_price_alerts_only_on_drop_witness :
  calc stale_reference_monitor = DROP_RELATIVE /\
  (0 <= threshold stale_reference_monitor)%Qc /\
  (0 < q 1 1)%Qc /\
  (exists a,
     snd (snd (reg_price (q 1 1) (hour + 2) (stale_reference_monitor, [])))
       = [] ++ [a] /\
     alert_symbol a = symbol stale_reference_monitor /\
     (0 < alert_percent a)%Qc /\
     (q 1 1 < get_price (_storage stale_reference_monitor))%Qc).
Proof.
  assert (calc stale_reference_monitor = DROP_RELATIVE) as H1 by reflexivity.
  assert (0 <= threshold stale_reference_monitor)%Qc as H2 by discriminate.
  assert (0 < q 1 1)%Qc as H3 by reflexivity.
  split; [exact H1|]. split; [exact H2|]. split; [exact H3|].
  destruct (proj2 (reg_price_alerts_only_on_drop stale_reference_monitor []
                     (q 1 1) (hour + 2) H1 H2 H3)) as [Hsame|Hdrop].
  - exfalso. vm_compute in Hsame. discriminate.
  - exact Hdrop.
Defined.

Lemma rising_no_alert (ticks : list (Qc * Z)) :
  forall (B : Qc) (m : SymbolMonitor) (log : list Alert),
    calc m = DROP_RELATIVE ->
    (0 <= threshold m)%Qc ->
    bounded_by B (_storage m) ->
    rising B ticks ->
    snd (snd (reg_prices ticks (m, log))) = log.
Proof.
  induction ticks as [|[p now] rest IH]; intros B m log Hcalc Hth Hb Hrise;
    [reflexivity|].
  destruct Hrise as (Hp & HB & Hrise). cbn [reg_prices].
  destruct (reg_price_bounded B p m log p now)
    as (r & m' & -> & Hc' & Ht' & Hb'); try assumption.
  - eapply Qcle_trans; [exact HB|].
    rewrite <- (Qcplus_0_r p) at 1. apply Qcplus_le_mono_l.
    rewrite <- (Qcmult_0_l p). apply Qcmult_le_compat_r; [assumption|].
    now apply Qclt_le_weak.
  - apply Qcle_refl.
  - destruct r as [[]|e]; [|reflexivity].
    apply (IH p); try assumption. now rewrite Ht'.
Qed.

(** X10.  A fresh monitor with the default comparison and a threshold that
    is not negative never calls the alert service on a feed of positive
    prices that never fall, whatever the times of the ticks and whether or
    not a store fails on the way. *)
Theorem rising_prices_never_alert (sym : string) (theta : Qc) (now0 : Z)
    (ticks : list (Qc * Z)) (log : list Alert) :
  (0 <= theta)%Qc ->
  rising (Q2Qc 0) ticks ->
  snd (snd (reg_prices ticks (new_monitor sym theta DROP_RELATIVE now0, log)))
    = log.
Proof.
  intros Hth Hrise.
  apply (rising_no_alert ticks (Q2Qc 0)); try assumption; [reflexivity|].
  simpl. apply bounded_by_weaken with sentinel_price;
    [discriminate | apply new_storage_bounded].
Qed.

Lemma rising_prices_never_alert_witness :
  (0 <= q 1 100)%Qc /\
  rising (Q2Qc 0) [(q 10 1, 5); (q 10 1, 2 * hour); (q 100 1, 1)] /\
  snd (snd (reg_prices [(q 10 1, 5); (q 10 1, 2 * hour); (q 100 1, 1)]
              (new_monitor "test" (q 1 100) DROP_RELATIVE 0, []))) = [].
Proof.
  assert (rising (Q2Qc 0) [(q 10 1, 5); (q 10 1, 2 * hour); (q 100 1, 1)]) as H
    by (simpl; repeat split; discriminate).
  split; [discriminate|]. split; [exact H|].
  apply (rising_prices_never_alert "test" (q 1 100) 0
           [(q 10 1, 5); (q 10 1, 2 * hour); (q 100 1, 1)] []);
    [discriminate | exact H].
Defined.

(** * Further properties of the dispatcher *)

(** ** The table built by [init_monitors] *)

Lemma build_monitors_other (config : list SymbolConfig) :
  forall (clock : nat -> Z) (i : nat) (acc : gmap string SymbolMonitor)
         (stream : string),
    (forall c, c ∈ config -> stream_name c <> stream) ->
    build_monitors clock i config acc !! stream = acc !! stream.
Proof.
  induction config as [|c rest IH]; intros clock i acc stream Hno; simpl;
    [reflexivity|].
  rewrite IH by (intros c' Hc'; apply Hno, elem_of_cons; now right).
  apply lookup_insert_ne. apply Hno, elem_of_cons. now left.
Qed.

Lemma build_monitors_last (pre : list SymbolConfig) :
  forall (clock : nat -> Z) (i : nat) (acc : gmap string SymbolMonitor)
         (c : SymbolConfig) (post : list SymbolConfig),
    (forall c', c' ∈ post -> stream_name c' <> stream_name c) ->
    build_monitors clock i (pre ++ c :: post) acc !! stream_name c =
      Some (new_monitor (cfg_symbol c) (alert_threshold c) DROP_RELATIVE
              (clock (i + length pre)%nat)).
Proof.
  induction pre as [|c0 pre IH]; intros clock i acc c post Hno; simpl.
  - rewrite build_monitors_other by assumption.
    rewrite lookup_insert_eq. now rewrite Nat.add_0_r.
  - rewrite IH by assumption. now rewrite Nat.add_succ_r.
Qed.

Lemma build_monitors_streams (config : list SymbolConfig) :
  forall (clock : nat -> Z) (i : nat) (acc : gmap string SymbolMonitor)
         (stream : string),
    is_Some (build_monitors clock i config acc !! stream) <->
    is_Some (acc !! stream) \/ exists c, c ∈ config /\ stream_name c = stream.
Proof.
  induction config as [|c rest IH]; intros clock i acc stream; simpl.
  - split; [auto|]. intros [H|(c & Hc & _)]; [assumption|].
    now apply elem_of_nil in Hc.
  - rewrite IH. rewrite lookup_insert. split.
    + intros [H|(c' & Hc' & Heq)].
      * case_decide as Hk; [|now left].
        right. exists c. split; [apply elem_of_cons; now left | assumption].
      * right. exists c'. split; [apply elem_of_cons; now right | assumption].
    + intros [H|(c' & Hc' & Heq)].
      * left. case_decide; [eauto | assumption].
      * apply elem_of_cons in Hc' as [->|Hc'].
        -- left. rewrite decide_True by assumption. eauto.
        -- right. eauto.
Qed.

(** X11.  [init_monitors] builds a table whose keys are exactly the stream
    names [symbol ++ "@trade"] of the configured symbols: every configured
    symbol has a monitor and no other stream has one.  An empty
    configuration gives an empty table. *)
Theorem init_monitors_streams (clock : nat -> Z) (config : list SymbolConfig)
    (stream : string) :
  is_Some (init_monitors clock config !! stream) <->
  exists c, c ∈ config /\ stream = (cfg_symbol c ++ "@trade")%string.
Proof.
  unfold init_monitors. rewrite build_monitors_streams. split.
  - intros [[m Hm]|(c & Hc & Heq)].
    + rewrite lookup_empty in Hm. discriminate.
    + exists c. split; [assumption | now rewrite <- Heq].
  - intros (c & Hc & ->). right. exists c. split; [assumption | reflexivity].
Qed.

(** X12.  The monitor that [init_monitors] files for a configuration entry
    that no later entry repeats is fresh: it carries the entry's symbol and
    threshold, the default comparison, and a one-hour storage holding only
    the sentinel, stamped with the clock reading of its construction.  When
    a symbol is configured twice, the later entry replaces the earlier. *)
Theorem init_monitors_last_wins (clock : nat -> Z)
    (pre post : list SymbolConfig) (c : SymbolConfig) :
  (forall c', c' ∈ post -> stream_name c' <> stream_name c) ->
  init_monitors clock (pre ++ c :: post) !! stream_name c =
    Some {| symbol := cfg_symbol c;
            threshold := alert_threshold c;
            calc := DROP_RELATIVE;
            _storage := new_storage hour (clock (length pre)) |}.
Proof.
  intros Hno. unfold init_monitors.
  rewrite build_monitors_last by assumption. reflexivity.
Qed.

Lemma init_monitors_last_wins_witness :
  (forall c', c' ∈ [mkConfig "btcusdt" (q 1 50)] ->
              stream_name c' <> stream_name (mkConfig "xrpusdt" (q 1 100))) /\
  init_monitors (fun i => Z.of_nat i)
      ([mkConfig "xrpusdt" (q 1 20)] ++
       mkConfig "xrpusdt" (q 1 100) :: [mkConfig "btcusdt" (q 1 50)])
    !! stream_name (mkConfig "xrpusdt" (q 1 100)) =
    Some {| symbol := cfg_symbol (mkConfig "xrpusdt" (q 1 100));
            threshold := alert_threshold (mkConfig "xrpusdt" (q 1 100));
            calc := DROP_RELATIVE;
            _storage :=
              new_storage hour
                ((fun i => Z.of_nat i) (length [mkConfig "xrpusdt" (q 1 20)])) |}.
Proof.
  assert (forall c', c' ∈ [mkConfig "btcusdt" (q 1 50)] ->
            stream_name c' <> stream_name (mkConfig "xrpusdt" (q 1 100))) as H.
  { intros c' Hc'. apply elem_of_cons in Hc' as [->|Hc'].
    - discriminate.
    - now apply elem_of_nil in Hc'. }
  split; [exact H|].
  apply (init_monitors_last_wins (fun i => Z.of_nat i)
           [mkConfig "xrpusdt" (q 1 20)] [mkConfig "btcusdt" (q 1 50)]
           (mkConfig "xrpusdt" (q 1 100)) H).
Defined.

Lemma build_monitors_calc (config : list SymbolConfig) :
  forall (clock : nat -> Z) (i : nat) (acc : gmap string SymbolMonitor),
    (forall stream m, acc !! stream = Some m -> calc m = DROP_RELATIVE) ->
    forall stream m,
      build_monitors clock i config acc !! stream = Some m ->
      calc m = DROP_RELATIVE.
Proof.
  induction config as [|c rest IH]; intros clock i acc Hacc; simpl;
    [exact Hacc|].
  apply IH. intros stream m. rewrite lookup_insert.
  case_decide; [intros [= <-]; reflexivity | apply Hacc].
Qed.

Lemma init_monitors_calc (clock : nat -> Z) (config : list SymbolConfig)
    (stream : string) (m : SymbolMonitor) :
  init_monitors clock config !! stream = Some m -> calc m = DROP_RELATIVE.
Proof.
  apply build_monitors_calc. intros s m'. rewrite lookup_empty. discriminate.
Qed.

(** ** One message *)

Lemma reg_price_keeps_config (m : SymbolMonitor) (log : list Alert)
    (p : Qc) (now : Z) :
  symbol (fst (snd (reg_price p now (m, log)))) = symbol m /\
  threshold (fst (snd (reg_price p now (m, log)))) = threshold m /\
  calc (fst (snd (reg_price p now (m, log)))) = calc m.
Proof.
  unfold reg_price. destruct (calc m _ p); [|simpl; auto].
  destruct (store _ _). simpl. auto.
Qed.

Lemma reg_price_log_grows (m : SymbolMonitor) (log : list Alert)
    (p : Qc) (now : Z) :
  snd (snd (reg_price p now (m, log))) = log \/
  exists a, snd (snd (reg_price p now (m, log))) = log ++ [a].
Proof.
  unfold reg_price. destruct (calc m _ p) as [diff|]; [|now left].
  destruct (store _ _). simpl.
  destruct (Qcltb (threshold m) diff); [right; eexists; reflexivity | now left].
Qed.

(** X13.  Handling one message touches at most the monitor of the
    message's stream: every other monitor is left as it was, no stream is
    added to the table or removed from it, the symbol, threshold and
    comparison of the addressed monitor stay the same, and the alert log
    is either unchanged or extended by one alert at its end. *)
Theorem handler_frame (monitors : gmap string SymbolMonitor)
    (log : list Alert) (msg : Message) (now : Z) :
  (forall stream, stream <> msg_stream msg ->
     fst (snd (handler msg now (monitors, log))) !! stream = monitors !! stream) /\
  (forall stream,
     is_Some (fst (snd (handler msg now (monitors, log))) !! stream) <->
     is_Some (monitors !! stream)) /\
  (forall m m',
     monitors !! msg_stream msg = Some m ->
     fst (snd (handler msg now (monitors, log))) !! msg_stream msg = Some m' ->
     symbol m' = symbol m /\ threshold m' = threshold m /\ calc m' = calc m) /\
  (snd (snd (handler msg now (monitors, log))) = log \/
   exists a, snd (snd (handler msg now (monitors, log))) = log ++ [a]).
Proof.
  unfold handler.
  destruct (monitors !! msg_stream msg) as [m|] eqn:Hm;
    cbn [truthy negb fst snd].
  - pose proof (reg_price_keeps_config m log (msg_price msg) now) as Hcfg.
    pose proof (reg_price_log_grows m log (msg_price msg) now) as Hlog.
    destruct (reg_price (msg_price msg) now (m, log)) as [r [m' log']].
    cbn [fst snd] in *. split; [|split; [|split]].
    + intros stream Hne. now rewrite lookup_insert_ne.
    + intros stream. rewrite lookup_insert. case_decide as Hk; [|reflexivity].
      subst stream. rewrite Hm. split; eauto.
    + intros m1 m1' H1 H2. rewrite lookup_insert_eq in H2.
      injection H1 as <-. injection H2 as <-. exact Hcfg.
    + exact Hlog.
  - split; [|split; [|split]].
    + reflexivity.
    + reflexivity.
    + intros m1 m1' H1. discriminate.
    + now left.
Qed.

(** ** The exceptions a message can raise *)

Lemma evict_loop_raise_kinds (fuel : nat) (obs : PriceAtTime) :
  forall (s s1 : LocalSymbolStorage) e,
    evict_loop fuel obs s = (Raise e, s1) ->
    e = ValueError \/ e = AttributeError \/ e = OutOfFuel.
Proof.
  induction fuel as [|fuel IH]; intros s s1 e; simpl.
  - intros [= <- _]. auto.
  - destruct (_price_history s !! _max_key s) as [top|];
      [|intros [= <- _]; auto].
    destruct (lifetime s <? datetime obs - datetime top); [|discriminate].
    destruct (max_of_keys _) as [k|]; [apply IH | intros [= <- _]; auto].
Qed.

Lemma store_raise_kinds (obs : PriceAtTime) (s s' : LocalSymbolStorage) e :
  store obs s = (Raise e, s') -> e = ValueError \/ e = AttributeError.
Proof.
  intros Hst.
  pose proof (store_never_out_of_fuel obs s) as Hfuel. rewrite Hst in Hfuel.
  apply store_Raise_inv, evict_loop_raise_kinds in Hst as [-> | [-> | ->]]; auto.
  now destruct Hfuel.
Qed.

Lemma reg_price_raise_kinds (m : SymbolMonitor) (log : list Alert)
    (p : Qc) (now : Z) e st' :
  calc m = DROP_RELATIVE ->
  reg_price p now (m, log) = (Raise e, st') ->
  (e = ZeroDivisionError /\ p = Q2Qc 0 /\ st' = (m, log)) \/
  ((e = ValueError \/ e = AttributeError) /\ p <> Q2Qc 0).
Proof.
  intros Hcalc. unfold reg_price. rewrite Hcalc. unfold DROP_RELATIVE.
  case_decide as Hp.
  - intros [= <- <-]. now left.
  - destruct (store _ _) as [r s'] eqn:Hst. intros [= -> _].
    right. split; [|assumption]. eapply store_raise_kinds, Hst.
Qed.

(** The exceptions of [handler] on a message that has been parsed, on a
    table whose monitors all use the default comparison. *)
Lemma handler_raise_cases (monitors : gmap string SymbolMonitor)
    (log : list Alert) (msg : Message) (now : Z) e w' :
  (forall stream m, monitors !! stream = Some m -> calc m = DROP_RELATIVE) ->
  handler msg now (monitors, log) = (Raise e, w') ->
  (e = KeyError (msg_stream msg) /\ monitors !! msg_stream msg = None /\
   w' = (monitors, log)) \/
  (e = ZeroDivisionError /\ is_Some (monitors !! msg_stream msg) /\
   msg_price msg = Q2Qc 0 /\ w' = (monitors, log)) \/
  ((e = ValueError \/ e = AttributeError) /\
   is_Some (monitors !! msg_stream msg) /\ msg_price msg <> Q2Qc 0).
Proof.
  intros Hcalc. unfold handler.
  destruct (monitors !! msg_stream msg) as [m|] eqn:Hm;
    cbn [truthy negb fst snd].
  - destruct (reg_price (msg_price msg) now (m, log)) as [r [m' log']] eqn:Hreg.
    intros [= -> <-]. right.
    apply reg_price_raise_kinds in Hreg as [(-> & Hp & [= -> ->])|[He Hp]];
      [| |eapply Hcalc, Hm].
    + left. repeat split; eauto. now rewrite insert_id.
    + right. eauto.
  - intros [= <- <-]. left. auto.
Qed.

(** X14.  What an exception of [handler] tells, on a table whose monitors
    all use the default comparison, as those built by [init_monitors] do.
    A [KeyError] comes from the table lookup: the message's stream has no
    monitor.  A [ZeroDivisionError] comes from the comparison: the stream
    has a monitor and the price is zero.  Either way the table and the
    alert log are as they were.  And the exception written in the
    [if not monitor] branch is never the one raised. *)
Theorem handler_raise_causes (monitors : gmap string SymbolMonitor)
    (log : list Alert) (msg : Message) (now : Z) e w' :
  (forall stream m, monitors !! stream = Some m -> calc m = DROP_RELATIVE) ->
  handler msg now (monitors, log) = (Raise e, w') ->
  (forall key, e = KeyError key ->
     key = msg_stream msg /\ monitors !! msg_stream msg = None /\
     w' = (monitors, log)) /\
  (e = ZeroDivisionError ->
     is_Some (monitors !! msg_stream msg) /\ msg_price msg = Q2Qc 0 /\
     w' = (monitors, log)) /\
  (forall stream, e <> MonitorNotCreated stream).
Proof.
  intros Hcalc Hh.
  destruct (handler_raise_cases _ _ _ _ _ _ Hcalc Hh)
    as [(-> & Hnone & ->)|[(-> & Hsome & Hp & ->)|([-> | ->] & Hsome & Hp)]].
  - split; [|split]; [|discriminate|discriminate].
    intros key [= <-]. auto.
  - split; [|split]; [discriminate| |discriminate]. auto.
  - split; [|split]; discriminate.
  - split; [|split]; discriminate.
Qed.

Lemma handler_raise_causes_witness :
  (forall stream m,
      init_monitors (fun _ => 0) symbols_config !! stream = Some m ->
      calc m = DROP_RELATIVE) /\
  handler (mkMessage "xrpusdt@trade" (q 0 1)) 5
      (init_monitors (fun _ => 0) symbols_config, []) =
    (Raise ZeroDivisionError, (init_monitors (fun _ => 0) symbols_config, [])) /\
  is_Some (init_monitors (fun _ => 0) symbols_config
             !! msg_stream (mkMessage "xrpusdt@trade" (q 0 1))) /\
  msg_price (mkMessage "xrpusdt@trade" (q 0 1)) = Q2Qc 0.
Proof.
  assert (forall stream m,
            init_monitors (fun _ => 0) symbols_config !! stream = Some m ->
            calc m = DROP_RELATIVE) as H
    by (intros stream m; apply init_monitors_calc).
  assert (handler (mkMessage "xrpusdt@trade" (q 0 1)) 5
            (init_monitors (fun _ => 0) symbols_config, []) =
          (Raise ZeroDivisionError,
           (init_monitors (fun _ => 0) symbols_config, []))) as Hh
    by (vm_compute; reflexivity).
  split; [exact H|]. split; [exact Hh|].
  destruct (handler_raise_causes (init_monitors (fun _ => 0) symbols_config) []
              (mkMessage "xrpusdt@trade" (q 0 1)) 5 ZeroDivisionError
              (init_monitors (fun _ => 0) symbols_config, []) H Hh)
    as (_ & Hzero & _).
  destruct (Hzero eq_refl) as (Hsome & Hp & _).
  split; [exact Hsome | exact Hp].
Defined.

(** ** The receive loop *)

Lemma reg_price_log_irrelevant (m : SymbolMonitor) (p : Qc) (now : Z)
    (log1 log2 : list Alert) :
  fst (reg_price p now (m, log1)) = fst (reg_price p now (m, log2)) /\
  fst (snd (reg_price p now (m, log1))) = fst (snd (reg_price p now (m, log2))).
Proof.
  unfold reg_price. destruct (calc m _ p); [|auto].
  destruct (store _ _). auto.
Qed.

(** X15.  Monitors do not interfere.  When the receive loop has handled a
    list of messages without an exception, the monitor of each stream is in
    the state it reaches when it alone is fed, in order, the ticks of the
    messages addressed to that stream; the messages of other streams and
    the alerts they cause have no effect on it. *)
Theorem handle_all_per_stream (msgs : list (Message * Z)) :
  forall (monitors monitors' : gmap string SymbolMonitor)
         (log log' log0 : list Alert) (stream : string) (m : SymbolMonitor) u,
    handle_all msgs (monitors, log) = (Ok u, (monitors', log')) ->
    monitors !! stream = Some m ->
    exists m' log1,
      reg_prices (ticks_for stream msgs) (m, log0) = (Ok tt, (m', log1)) /\
      monitors' !! stream = Some m'.
Proof.
  induction msgs as [|[msg now] rest IH];
    intros monitors monitors' log log' log0 stream m u; cbn [handle_all ticks_for].
  - intros [= _ <- _] Hm. exists m, log0. auto.
  - destruct (handler msg now (monitors, log)) as [[[]|e] [monitors1 log1]]
      eqn:Hh; [|discriminate].
    unfold handler in Hh.
    destruct (monitors !! msg_stream msg) as [mm|] eqn:Hmm; [|discriminate].
    cbn [truthy negb] in Hh.
    destruct (reg_price (msg_price msg) now (mm, log)) as [r [mm' logx]] eqn:Hreg.
    injection Hh as -> <- <-.
    intros Hrest Hm. case_decide as Hs.
    + subst stream. rewrite Hmm in Hm. injection Hm as ->.
      cbn [reg_prices].
      destruct (reg_price_log_irrelevant m (msg_price msg) now log log0)
        as [Hr Hst].
      rewrite Hreg in Hr, Hst. cbn [fst snd] in Hr, Hst.
      destruct (reg_price (msg_price msg) now (m, log0)) as [r0 [m0 l0]].
      cbn [fst snd] in Hr, Hst. subst r0 m0.
      eapply IH; [exact Hrest | apply lookup_insert_eq].
    + eapply IH; [exact Hrest|]. now rewrite lookup_insert_ne.
Qed.

Lemma handle_all_per_stream_witness :
  handle_all mixed_feed (init_monitors (fun _ => 0) two_symbols, []) =
    (Ok tt,
     (fst (snd (handle_all mixed_feed
                  (init_monitors (fun _ => 0) two_symbols, []))),
      snd (snd (handle_all mixed_feed
                  (init_monitors (fun _ => 0) two_symbols, []))))) /\
  init_monitors (fun _ => 0) two_symbols !! "xrpusdt@trade" =
    Some (new_monitor "xrpusdt" (q 1 100) DROP_RELATIVE 0) /\
  exists m' log1,
    reg_prices (ticks_for "xrpusdt@trade" mixed_feed)
        (new_monitor "xrpusdt" (q 1 100) DROP_RELATIVE 0, []) =
      (Ok tt, (m', log1)) /\
    fst (snd (handle_all mixed_feed
                (init_monitors (fun _ => 0) two_symbols, [])))
      !! "xrpusdt@trade" = Some m'.
Proof.
  split; [vm_compute; reflexivity|].
  split; [vm_compute; reflexivity|].
  apply (handle_all_per_stream mixed_feed
           (init_monitors (fun _ => 0) two_symbols)
           (fst (snd (handle_all mixed_feed
                        (init_monitors (fun _ => 0) two_symbols, []))))
           []
           (snd (snd (handle_all mixed_feed
                        (init_monitors (fun _ => 0) two_symbols, []))))
           [] "xrpusdt@trade"
           (new_monitor "xrpusdt" (q 1 100) DROP_RELATIVE 0) tt).
  - vm_compute; reflexivity.
  - vm_compute; reflexivity.
Defined.

(** X16.  A message with a zero price for a stream whose monitor uses the
    default comparison makes [handler] raise [ZeroDivisionError] before
    anything is stored or alerted: the table and the alert log are exactly
    as before, and the receive loop ends there. *)
Theorem handler_zero_price (monitors : gmap string SymbolMonitor)
    (log : list Alert) (msg : Message) (now : Z) (m : SymbolMonitor)
    (rest : list (Message * Z)) :
  monitors !! msg_stream msg = Some m ->
  calc m = DROP_RELATIVE ->
  msg_price msg = Q2Qc 0 ->
  handler msg now (monitors, log) = (Raise ZeroDivisionError, (monitors, log)) /\
  handle_all ((msg, now) :: rest) (monitors, log) =
    (Raise ZeroDivisionError, (monitors, log)).
Proof.
  intros Hm Hcalc Hp.
  assert (handler msg now (monitors, log) =
          (Raise ZeroDivisionError, (monitors, log))) as Hh.
  { unfold handler. rewrite Hm. cbn [truthy negb].
    unfold reg_price. rewrite Hcalc, Hp. unfold DROP_RELATIVE.
    rewrite decide_True by reflexivity. cbv beta iota.
    now rewrite insert_id. }
  split; [exact Hh|]. cbn [handle_all]. now rewrite Hh.
Qed.

Lemma handler_zero_price_witness :
  init_monitors (fun _ => 0) two_symbols
    !! msg_stream (mkMessage "btcusdt@trade" (q 0 1)) =
    Some (new_monitor "btcusdt" (q 1 50) DROP_RELATIVE 0) /\
  calc (new_monitor "btcusdt" (q 1 50) DROP_RELATIVE 0) = DROP_RELATIVE /\
  msg_price (mkMessage "btcusdt@trade" (q 0 1)) = Q2Qc 0 /\
  handler (mkMessage "btcusdt@trade" (q 0 1)) 7
      (init_monitors (fun _ => 0) two_symbols, []) =
    (Raise ZeroDivisionError, (init_monitors (fun _ => 0) two_symbols, [])) /\
  handle_all ((mkMessage "btcusdt@trade" (q 0 1), 7) :: mixed_feed)
      (init_monitors (fun _ => 0) two_symbols, []) =
    (Raise ZeroDivisionError, (init_monitors (fun _ => 0) two_symbols, [])).
Proof.
  split; [vm_compute; reflexivity|].
  split; [reflexivity|]. split; [reflexivity|].
  apply (handler_zero_price (init_monitors (fun _ => 0) two_symbols) []
           (mkMessage "btcusdt@trade" (q 0 1)) 7
           (new_monitor "btcusdt" (q 1 50) DROP_RELATIVE 0) mixed_feed).
  - vm_compute; reflexivity.
  - reflexivity.
  - reflexivity.
Defined.
